(* ===== verification/_CoqProject ===== *)
-Q . S2P
Prelude.v
JsString.v
Static.v
Regex.v
Signin.v
Signup.v
DbConnection.v
Server.v
ItemStore.v
DeckPage.v
DeckSpec.v
EndToEnd.v
