(* ===== verification/Prelude.v ===== *)
(** * BrainFlip: a verification development of the flashcard application

    The repository is a browser client (React pages under
    [src/frontend/src]) and an Express server ([src/backend/index.js]).
    The client's pages validate forms and manage a deck of cards; the deck
    page asks the server to generate cards from a PDF.  The server wires
    CORS, body parsers, three routers, a root route and a middleware that
    opens the MongoDB connection through a process-wide cache.  This
    library models, as executable Rocq definitions, every part of that code
    that carries logic, and proves what makes each correct, or shows
    where it is not.

    ** Files, in dependency order, and what they model

    - [Prelude] (this file): the notation scope [brainflip_scope], the
      hint databases [brainflip] and [brainflip_rw], the tactic
      [bool_to_prop], and generic lemmas on booleans, lists and finite maps.
    - [JsString]: JavaScript strings as lists of UTF-16 code units
      ([list N]); ECMAScript's WhiteSpace and LineTerminator set (used by
      [\s] and [String.prototype.trim]), [trim] with its
      characterisation, truthiness, [parseInt] (sign, [0x] prefix,
      longest digit prefix, [NaN]) and [String] on integers
      ([number_to_string]: decimal below [10^21], exponent form above).
    - [Static]: the two components without state, [components/Footer.jsx]
      (the copyright line as a function of the year) and
      [app-bar/SitemarkIcon.js] (the SVG as a constant record, with a
      parser for its [#rrggbbaa] colours).
    - [Regex]: the fragment of JavaScript regular expressions the pages
      use (classes, [.], [*], [+], lookahead, anchors) as an AST with a
      relational semantics and an executable backtracking matcher
      ([matches]) proved sound and complete; [emailRegex] and
      [passwordRegex] of [pages/Signin.jsx] and what they accept.
    - [Signin]: [pages/Signin.jsx]: the state record, [validate],
      [handleSubmit] and the event [step] of the page.
    - [Signup]: [pages/Signup.jsx], in Module [SignupPage] (its names
      clash with the sign-in page's): the state record and its setters,
      [validate] with the [errors] object as a [gmap string string],
      [handleSubmit] and the event [step] of the page.
    - [DbConnection]: [connectToDatabase] of [backend/index.js] (lines
      73-113) on the event loop: the cache [{conn, promise}], the settling
      of [mongoose.connect], and each call's jobs between its [await]s, as
      an executable [exec] over events; [cache_step] is the step relation
      ([st ~~> st']) and [reachable] its closure from module load.
    - [Server]: the Express application of [backend/index.js] (requests
      with JSON, URL-encoded or multipart bodies; JSON values): the layer
      stack in registration order ([app_layers]), each layer's handler
      ([run_layer]) and Express's dispatch over the stack ([dispatch]),
      which returns the response and the layers a request went through
      (mount paths match case-insensitively, as in Express; the body
      parsers answer a body they reject with 400, 413 or 415);
      the startup block ([startup], [listening]) on top of the cache.
    - [ItemStore]: the item-store hook [hooks/useItemManager], which is
      not in the sources: its operations as a typeclass [ItemStore], its
      contract from the specification as [ItemStoreLaws], and a list
      implementation proved to meet it.
    - [DeckPage]: [pages/DeckPage.jsx]: the components [EditableCard],
      [PDFModal] and [ShareModal] (a Module each: state record, handlers,
      [step] per user event, returning callbacks to the parent) and the
      page (Section [Page], over any [ItemStore] instance): [page_step]
      composes the children's steps with the page's handlers;
      [handlePDFSubmit] is split at its [await] into the request
      ([PDF Submit]) and the response ([GenerateResponse]).
    - [DeckSpec]: the card service of the specification (section 4.1) as
      an abstract machine ([card_op], [apply_op]), the service operations
      each page event requests ([requested]), and the refinement of the
      service by the deck page, event by event.
    - [EndToEnd]: the composition of the deck page and the server for the
      PDF generation: the [FormData] request as the Express stack receives
      it, the browser's [fetch] (port, CORS check, [response.ok],
      [response.json()]) and the page's [GenerateResponse].

    ** Theorems

    - Regular expressions: the matcher agrees with the semantics; the
      e-mail pattern accepts exactly the strings with an [@] and a later
      [.] around non-empty runs of non-space, non-[@] characters; the
      password pattern accepts exactly the non-empty strings without a
      line terminator that contain an ASCII lower-case letter, an ASCII
      upper-case letter and a digit.
    - Forms: when sign-in and sign-up validation succeed and which error
      each shows; the sign-up errors object stays well typed along any
      run, so every error it holds is rendered; sign-up accepts exactly
      what sign-in accepts plus a name and a matching confirmation.
    - Connection cache (invariant [cache_inv], preserved by every step):
      [mongoose.connect] runs at most once; every returned connection is
      the cached one; every call completes once the promise settles; a
      rejected promise is cached for good (a defect); for every [n], [n]
      concurrent first calls run [dropIndex] [n] times (contrary to the
      comment "runs only once per instance"), and never more than once
      per call.  Termination: without new requests the event
      loop falls idle ([jobs_terminate], a well-founded relation measured
      by [pending_jobs]), after at most one job per pending promise and
      two per call in flight.
    - Server: CORS headers on every response and preflights answered
      first; requests answered by a router never reach the database
      middleware (it is registered after them); a JSON or URL-encoded body
      the parser rejects is answered 400, 413 or 415 by the parser before any router or
      the database middleware runs; [/health] is advertised
      but missing; the root route's port; in development the server
      listens exactly once the startup connection succeeds, and never
      after it fails; in production startup does nothing.
    - Deck page (against the store contract only): generation appends
      the returned cards in order with fresh ids, keeps the cards before a
      [null] element without telling the user, and leaves the deck alone on
      failure; add, edit and delete do what the buttons say; Cancel keeps a stale draft that a later Save
      stores; the share modal locks up if its promise rejects; sharing and
      the favourite flag are local only; the import loop is a fold of
      [addItem]; the PDF modal's count input reads back what it shows when
      the modal opens
      below [10^21] and not from there on.
    - Refinement ([DeckSpec]): a simulation of the card service by the
      deck page: after any run, the cards are exactly the cards before it
      transformed by the service operations the events requested (an add
      of the form's values per submit, an edit of the card with the
      editor's draft per Save, a delete of the card per Delete, an add per
      generated card before the first [null]), each served successfully;
      no other event changes the cards.
    - End to end ([EndToEnd]): a request no router
      answers shows the database error or the generic failure; a cards
      router's array of questions and answers ends up in the deck.
    - Static components: the footer shows the current year as [String]
      prints it (read back by [parseInt]); the icon's two text colours
      are a blue and a cyan, not the gold and light brown its comments
      name, and both lines lie inside the view box.

    Witnesses evaluate the definitions on concrete inputs (the deck's
    initial card of [DeckPage.jsx], two concurrent requests, and so on).

    ** Bounds and fuel

    The only fuel is the star iteration of the matcher: [matches] gives
    [star_matches] the fuel [S (length s)], enough because each counted
    iteration consumes at least one code unit (an iteration that consumes
    nothing is never needed, [matches_complete]).  [decimal_digits] divides
    by 10 at most [1 + size n] times, enough because [n < 2^(size n)]
    ([decimal_digits_value]).  Counters ([connect_calls], [inflight],
    ids) are unbounded [nat]s: JavaScript numbers exceed them only after
    2^53 events.  [js_number] keeps integers exact; JavaScript rounds
    beyond 2^53, which only the [10^21] boundary of [String] touches.

    ** Not modelled

    The route modules (not in the sources), [mongoose] and MongoDB
    beyond the promise of [mongoose.connect], [app.listen] beyond the
    fact that it is called, rendering beyond the text a test could observe,
    [console.log], the layout and styling of the markup (class names,
    [sx] props other than the icon's size), the module headers
    ([require], imports, exports), and the browser's form constraint
    validation ([required], [min], [max]): a submit event in the model is
    one the browser let through.  The item-store hook and [AddItemForm]
    are not in the sources: the hook is modelled from the specification,
    the form only through the props the page passes it.  Apart from
    these, every line of the sources that computes something is
    translated; what remains is imports and exports, [console.log] and
    [console.error] calls, class names and inline styles, and the
    commented-out backend calls of [handleShareSubmit] and
    [handleToggleFavorite], which do not run.

    ** Conventions

    Strings the user types are [jsstring]s; messages the code writes are
    [string] literals copied from the source.  Every definition that
    models code keeps the source's name. *)

From stdpp Require Export base list strings gmap relations.
From Stdlib Require Export NArith Lia.

Declare Scope brainflip_scope.
Delimit Scope brainflip_scope with bf.

Create HintDb brainflip discriminated.
Create Rewrite HintDb brainflip_rw.

(** ** Boolean reflection helpers *)

Lemma andb_true_split (a b : bool) : a && b = true <-> a = true /\ b = true.
Proof. destruct a, b; simpl; intuition congruence. Qed.

Lemma orb_true_split (a b : bool) : a || b = true <-> a = true \/ b = true.
Proof. destruct a, b; simpl; intuition congruence. Qed.

Lemma negb_true_split (a : bool) : negb a = true <-> a = false.
Proof. destruct a; simpl; intuition congruence. Qed.

Lemma not_true_false (a : bool) : a <> true <-> a = false.
Proof. destruct a; intuition congruence. Qed.

#[export] Hint Rewrite andb_true_split orb_true_split negb_true_split negb_false_iff
  @bool_decide_eq_true @bool_decide_eq_false : brainflip_rw.

(** [bool_to_prop] turns the boolean tests of a hypothesis or goal into
    propositions, the form in which the code's conditions are stated. *)
Ltac bool_to_prop :=
  repeat (autorewrite with brainflip_rw in *; simpl in * ).

(** ** Lists *)

Lemma forallb_Forall {A} (f : A -> bool) (l : list A) :
  forallb f l = true <-> Forall (fun x => f x = true) l.
Proof. rewrite forallb_forall, Forall_forall. setoid_rewrite list_elem_of_In. done. Qed.

Lemma existsb_Exists {A} (f : A -> bool) (l : list A) :
  existsb f l = true <-> Exists (fun x => f x = true) l.
Proof.
  rewrite existsb_exists, Exists_exists. setoid_rewrite list_elem_of_In. done.
Qed.

Lemma existsb_false_Forall {A} (f : A -> bool) (l : list A) :
  existsb f l = false <-> Forall (fun x => f x = false) l.
Proof.
  induction l as [|x l IH]; simpl; [split; auto|].
  rewrite Forall_cons, <- IH. destruct (f x); simpl; intuition congruence.
Qed.

Lemma app_eq_nil_iff {A} (l1 l2 : list A) : l1 ++ l2 = [] <-> l1 = [] /\ l2 = [].
Proof. split; [apply app_eq_nil | intros [-> ->]; done]. Qed.

(** A list is a suffix of another when it is what remains after a
    prefix is consumed; matchers only ever return suffixes. *)
Definition is_suffix {A} (t s : list A) : Prop := exists p, s = p ++ t.

Lemma is_suffix_refl {A} (s : list A) : is_suffix s s.
Proof. exists []. done. Qed.

Lemma is_suffix_trans {A} (u t s : list A) :
  is_suffix u t -> is_suffix t s -> is_suffix u s.
Proof. intros [p ->] [q ->]. exists (q ++ p). by rewrite app_assoc. Qed.

Lemma is_suffix_cons {A} (c : A) (t : list A) : is_suffix t (c :: t).
Proof. exists [c]. done. Qed.

Lemma is_suffix_length {A} (t s : list A) : is_suffix t s -> length t <= length s.
Proof. intros [p ->]. rewrite length_app. lia. Qed.

Lemma is_suffix_same_length {A} (t s : list A) :
  is_suffix t s -> length t = length s -> t = s.
Proof.
  intros [p ->] Hl. rewrite length_app in Hl.
  destruct p; [done | simpl in Hl; lia].
Qed.

#[export] Hint Resolve is_suffix_refl is_suffix_cons is_suffix_trans : brainflip.

Lemma NoDup_list_filter {A} (f : A -> bool) (l : list A) : NoDup l -> NoDup (List.filter f l).
Proof.
  induction 1 as [|x l Hx Hnd IH]; simpl; [constructor|].
  destruct (f x); [|done]. constructor; [|done].
  intros Hin%list_elem_of_In. apply Hx, list_elem_of_In. by apply filter_In in Hin as [? _].
Qed.

(** ** Sums over lists *)

Lemma sum_list_with_insert {A} (f : A -> nat) (l : list A) i x y :
  l !! i = Some x -> sum_list_with f (<[i := y]> l) + f x = sum_list_with f l + f y.
Proof.
  revert i. induction l as [|z l IH]; intros [|i] Hi; simpl in *; try done.
  - injection Hi as ->. lia.
  - specialize (IH i Hi). lia.
Qed.

Lemma sum_list_with_bound {A} (f : A -> nat) (k : nat) (l : list A) :
  (forall x, f x <= k) -> sum_list_with f l <= k * length l.
Proof. intros Hf. induction l as [|x l IH]; simpl; [lia|]. specialize (Hf x). lia. Qed.

(** ** Finite maps read through a list of keys *)

(** Reading a map at each of a duplicate-free list of keys that covers its
    domain finds every entry exactly once. *)
Lemma length_omap_lookup `{Countable K} {A} (m : gmap K A) (l : list K) :
  NoDup l -> dom m ⊆ list_to_set l -> length (omap (m !!.) l) = size m.
Proof.
  revert m. induction l as [|k l IH]; intros m Hnd Hdom; csimpl.
  - symmetry. apply map_size_empty_iff, dom_empty_iff_L. set_solver.
  - apply NoDup_cons in Hnd as [Hk Hnd].
    assert (Hl : omap (m !!.) l = omap (delete k m !!.) l).
    { apply list_omap_ext, Forall_Forall2_diag, Forall_forall.
      intros g Hg. rewrite lookup_delete_ne; [done | set_solver]. }
    assert (Hdom' : dom (delete k m) ⊆ list_to_set l) by (rewrite dom_delete_L; set_solver).
    pose proof (map_size_delete k m) as Hsz.
    destruct (m !! k) eqn:Hmk; csimpl; rewrite Hl, IH by done; rewrite Hsz; [|done].
    assert (size m <> 0); [|simpl; lia].
    rewrite map_size_empty_iff. intros ->. by rewrite lookup_empty in Hmk.
Qed.
