(* ===== verification/JsString.v ===== *)
(** * JavaScript strings: code units, white space and [trim]

    A JavaScript string is a sequence of UTF-16 code units; here a
    [jsstring] is a [list N].  This file holds the character sets of
    ECMA-262 that the pages rely on through [\s] in regular expressions
    and through [String.prototype.trim] (WhiteSpace and LineTerminator,
    ECMA-262 sections 12.2 and 12.3), the truthiness of a string ([!s]),
    and [trim] with its characterisation: it removes exactly the maximal
    white-space prefix and suffix.  It also holds [parseInt] and
    [String] on integers ([number_to_string]), with the round trip
    between them below [10^21] and what [parseInt] reads from the
    exponent form from [10^21] on. *)

From S2P Require Import Prelude.

Definition code_unit := N.
Definition jsstring := list code_unit.

(** ASCII literals of the source, as code units. *)
Fixpoint js (s : string) : jsstring :=
  match s with
  | EmptyString => []
  | String a r => Ascii.N_of_ascii a :: js r
  end.

(** LineTerminator: LF, CR, LINE SEPARATOR, PARAGRAPH SEPARATOR. *)
Definition is_line_terminator (c : code_unit) : bool :=
  (c =? 10)%N || (c =? 13)%N || (c =? 8232)%N || (c =? 8233)%N.

(** WhiteSpace: TAB, VT, FF, ZWNBSP and the Unicode [Zs] category
    (SPACE, NO-BREAK SPACE, OGHAM SPACE MARK, EN QUAD .. HAIR SPACE,
    NARROW NO-BREAK SPACE, MEDIUM MATHEMATICAL SPACE, IDEOGRAPHIC SPACE). *)
Definition is_whitespace (c : code_unit) : bool :=
  (c =? 9)%N || (c =? 11)%N || (c =? 12)%N || (c =? 65279)%N
  || (c =? 32)%N || (c =? 160)%N || (c =? 5760)%N
  || ((8192 <=? c)%N && (c <=? 8202)%N)
  || (c =? 8239)%N || (c =? 8287)%N || (c =? 12288)%N.

(** The class [\s] and the set [trim] strips are the same set. *)
Definition is_js_space (c : code_unit) : bool :=
  is_whitespace c || is_line_terminator c.

(** [!s] on a string is [true] exactly for the empty string. *)
Definition str_truthy (s : jsstring) : bool :=
  match s with [] => false | _ :: _ => true end.

Fixpoint trim_start (s : jsstring) : jsstring :=
  match s with
  | [] => []
  | c :: r => if is_js_space c then trim_start r else s
  end.

Definition trim_end (s : jsstring) : jsstring := rev (trim_start (rev s)).

(** [String.prototype.trim]: TrimString(S, start+end). *)
Definition trim (s : jsstring) : jsstring := trim_end (trim_start s).

Definition all_space (s : jsstring) : Prop := Forall (fun c => is_js_space c = true) s.

(** ** Lemmas *)

Lemma line_terminator_is_space c : is_line_terminator c = true -> is_js_space c = true.
Proof. unfold is_js_space. intros ->. apply orb_true_r. Qed.

Lemma trim_start_split s :
  exists p, s = p ++ trim_start s /\ all_space p /\
    (trim_start s = [] \/ exists c r, trim_start s = c :: r /\ is_js_space c = false).
Proof.
  induction s as [|c r IH]; simpl.
  - exists []. split; [done|]. split; [constructor | by left].
  - destruct (is_js_space c) eqn:Hc.
    + destruct IH as (p & Hp & Hsp & Hend). exists (c :: p).
      split; [by rewrite Hp at 1|]. split; [by constructor|done].
    + exists []. split; [done|]. split; [constructor|]. right. eauto.
Qed.

Lemma trim_start_nil_iff s : trim_start s = [] <-> all_space s.
Proof.
  unfold all_space. induction s as [|c r IH]; simpl.
  - split; auto.
  - rewrite Forall_cons. destruct (is_js_space c); [rewrite IH; intuition|].
    split; [discriminate | intros [? _]; discriminate].
Qed.

Lemma all_space_rev s : all_space (rev s) <-> all_space s.
Proof.
  unfold all_space. split; intros H; [rewrite <- (rev_involutive s)|]; by apply Forall_rev.
Qed.

Lemma trim_start_all_space_app p s : all_space p -> trim_start (p ++ s) = trim_start s.
Proof. induction 1 as [|c p Hc _ IH]; simpl; [done|]. by rewrite Hc. Qed.

Lemma trim_start_head c r : is_js_space c = false -> trim_start (c :: r) = c :: r.
Proof. simpl. intros ->. done. Qed.

Lemma trim_start_idem s : trim_start (trim_start s) = trim_start s.
Proof.
  induction s as [|c r IH]; simpl; [done|].
  destruct (is_js_space c) eqn:Hc; [done|]. simpl. by rewrite Hc.
Qed.

#[export] Hint Resolve line_terminator_is_space : brainflip.

(** ** Properties of [trim] *)

(** [trim_end] only removes a white-space suffix, and what it keeps does
    not end with white space. *)
Lemma trim_end_split s :
  exists q, s = trim_end s ++ q /\ all_space q /\
    (trim_end s = [] \/ exists m d, trim_end s = m ++ [d] /\ is_js_space d = false).
Proof.
  destruct (trim_start_split (rev s)) as (p & Hp & Hsp & Hend).
  exists (rev p). unfold trim_end. split; [|split].
  - by rewrite <- rev_app_distr, <- Hp, rev_involutive.
  - by apply all_space_rev.
  - destruct Hend as [-> | (d & r & -> & Hd)]; [by left|].
    right. exists (rev r), d. done.
Qed.

Lemma trim_end_keeps_head c r :
  is_js_space c = false -> exists r', trim_end (c :: r) = c :: r'.
Proof.
  intros Hc. destruct (trim_end_split (c :: r)) as (q & Hq & Hsq & _).
  destruct (trim_end (c :: r)) as [|c' r'] eqn:E.
  - simpl in Hq. rewrite <- Hq in Hsq. inversion Hsq. congruence.
  - simpl in Hq. injection Hq as -> _. eauto.
Qed.

(** The trimmed string is empty exactly when the string consists of white
    space only: this is the test [!s.trim()] of the pages. *)
Lemma trim_nil_iff s : trim s = [] <-> all_space s.
Proof.
  split.
  - intros H. destruct (trim_start_split s) as (p & Hp & Hsp & _).
    destruct (trim_end_split (trim_start s)) as (q & Hq & Hsq & _).
    unfold trim in H. rewrite H in Hq. simpl in Hq. rewrite Hp, Hq.
    by apply Forall_app.
  - intros H. apply trim_start_nil_iff in H. unfold trim. rewrite H. done.
Qed.

(** [trim] removes a white-space prefix and a white-space suffix and keeps
    the middle, which neither starts nor ends with white space. *)
Theorem trim_spec s :
  exists p q, s = p ++ trim s ++ q /\ all_space p /\ all_space q /\
    (trim s = [] \/ exists c r m d,
        trim s = c :: r /\ is_js_space c = false /\
        trim s = m ++ [d] /\ is_js_space d = false).
Proof.
  destruct (trim_start_split s) as (p & Hp & Hsp & Hstart).
  destruct (trim_end_split (trim_start s)) as (q & Hq & Hsq & Hend).
  exists p, q. unfold trim. split; [by rewrite <- Hq|].
  split; [done|]. split; [done|].
  destruct Hend as [Hnil | (m & d & Hmd & Hd)]; [by left|]. right.
  destruct Hstart as [Hnil | (c & r & Hcr & Hc)].
  { rewrite Hnil in Hmd. unfold trim_end in Hmd. simpl in Hmd.
    destruct m; discriminate. }
  rewrite Hcr in *. destruct (trim_end_keeps_head c r Hc) as (r' & Hr').
  exists c, r', m, d. rewrite Hr' in *. done.
Qed.

(** [trim] is idempotent. *)
Lemma trim_idem s : trim (trim s) = trim s.
Proof.
  destruct (trim_spec s) as (p & q & _ & _ & _ & [Hnil | (c & r & m & d & Hcr & Hc & Hmd & Hd)]).
  - rewrite Hnil. done.
  - unfold trim at 1. rewrite Hcr at 1. rewrite trim_start_head by done.
    rewrite <- Hcr, Hmd. unfold trim_end. rewrite rev_app_distr. simpl.
    rewrite Hd. simpl. by rewrite rev_involutive.
Qed.

(** ** [parseInt] with no radix argument (ECMA-262, 19.2.5)

    A [js_number] here is [NaN] or an integer: [parseInt] never yields a
    fraction.  Values are kept exact; the language rounds results beyond
    2^53 to a double, which the page's counts (at most 50) never reach. *)

Inductive js_number := NaN | Num (z : Z).

(** The value of a code unit as a digit of radix up to 36. *)
Definition digit_value (c : code_unit) : option N :=
  if (48 <=? c)%N && (c <=? 57)%N then Some (c - 48)%N
  else if (97 <=? c)%N && (c <=? 122)%N then Some (c - 87)%N
  else if (65 <=? c)%N && (c <=? 90)%N then Some (c - 55)%N
  else None.

(** The longest prefix of radix-[r] digits, as digit values. *)
Fixpoint digit_prefix (r : N) (s : jsstring) : list N :=
  match s with
  | [] => []
  | c :: t => match digit_value c with
              | Some d => if (d <? r)%N then d :: digit_prefix r t else []
              | None => []
              end
  end.

Definition digits_value (r : N) (ds : list N) : N := fold_left (fun acc d => acc * r + d)%N ds 0%N.

(** Steps 4-6: an optional sign. *)
Definition parse_sign (s : jsstring) : Z * jsstring :=
  match s with
  | c :: t => if (c =? 45)%N then ((-1)%Z, t) else if (c =? 43)%N then (1%Z, t) else (1%Z, s)
  | [] => (1%Z, s)
  end.

(** Steps 8-11 with no radix: a [0x] or [0X] prefix selects radix 16. *)
Definition parse_radix (s : jsstring) : N * jsstring :=
  match s with
  | c :: x :: t => if (c =? 48)%N && ((x =? 120)%N || (x =? 88)%N) then (16%N, t) else (10%N, s)
  | _ => (10%N, s)
  end.

Definition parseInt (input : jsstring) : js_number :=
  let '(sign, s) := parse_sign (trim_start input) in
  let '(r, s) := parse_radix s in
  match digit_prefix r s with
  | [] => NaN
  | ds => Num (sign * Z.of_N (digits_value r ds))%Z
  end.

Lemma digit_not_space c : (48 <= c <= 57)%N -> is_js_space c = false.
Proof.
  intros Hc. unfold is_js_space, is_whitespace, is_line_terminator.
  repeat match goal with
         | |- context [(c =? ?k)%N] => destruct (N.eqb_spec c k); [lia|]
         | |- context [(?k <=? c)%N] => destruct (N.leb_spec k c)
         | |- context [(c <=? ?k)%N] => destruct (N.leb_spec c k)
         end; simpl; try reflexivity; lia.
Qed.

Lemma digit_prefix_decimal ds :
  Forall (fun d => (d < 10)%N) ds -> digit_prefix 10 (map (fun d => 48 + d)%N ds) = ds.
Proof.
  induction 1 as [|d ds Hd _ IH]; simpl; [done|].
  unfold digit_value. destruct (N.leb_spec 48 (48 + d)); [|lia].
  destruct (N.leb_spec (48 + d) 57); [|lia]. simpl.
  replace (48 + d - 48)%N with d by lia.
  destruct (N.ltb_spec d 10); [|lia]. by rewrite IH.
Qed.

(** [parseInt] reads a non-empty string of decimal digits as its decimal
    value: the count typed into a number input is the count sent. *)
Lemma parseInt_decimal (ds : list N) :
  ds <> [] -> Forall (fun d => (d < 10)%N) ds ->
  parseInt (map (fun d => 48 + d)%N ds) = Num (Z.of_N (digits_value 10 ds)).
Proof.
  intros Hne Hds. destruct ds as [|d ds]; [done|].
  inversion Hds as [|? ? Hd Hds']; subst.
  pose proof (digit_prefix_decimal (d :: ds) Hds) as Hpre.
  remember (map (fun d => (48 + d)%N) (d :: ds)) as s eqn:Hs. simpl in Hs.
  unfold parseInt. rewrite Hs, trim_start_head by (apply digit_not_space; lia).
  assert (Hsign : parse_sign (@cons code_unit (48 + d)%N (map (fun d => (48 + d)%N) ds))
                  = (1%Z, (48 + d)%N :: map (fun d => (48 + d)%N) ds)).
  { unfold parse_sign. destruct (N.eqb_spec (48 + d) 45); [lia|].
    destruct (N.eqb_spec (48 + d) 43); [lia|]. done. }
  assert (Hr : parse_radix ((48 + d)%N :: map (fun d => (48 + d)%N) ds)
               = (10%N, (48 + d)%N :: map (fun d => (48 + d)%N) ds)).
  { unfold parse_radix. destruct ds as [|d' ds']; [done|].
    inversion Hds' as [|? ? Hd' _]; subst. cbn [map].
    destruct (N.eqb_spec (48 + d') 120); [lia|]. destruct (N.eqb_spec (48 + d') 88); [lia|].
    by rewrite andb_false_r. }
  rewrite Hsign, Hr, <- Hs, Hpre. f_equal. lia.
Qed.

(** ** [Number::toString] on integers (ECMA-262, 6.1.6.1.20)

    [String(n)] for an integer [n]: a minus sign when negative, then the
    decimal digits when [|n| < 10^21]; from [10^21] on, the leading digit,
    the other significant digits after a point (trailing zeros dropped)
    and [e+] with the exponent.  This is what a controlled
    [<input value={n}>] shows. *)

(** Decimal digits of [n], most significant first, pushed on [acc]; the
    fuel bounds the number of divisions by 10. *)
Fixpoint decimal_digits_aux (fuel : nat) (n : N) (acc : list N) : list N :=
  match fuel with
  | O => acc
  | S f => if (n <? 10)%N then n :: acc else decimal_digits_aux f (n / 10)%N ((n mod 10)%N :: acc)
  end.

(** [n < 2^(size n)], so [1 + size n] steps always suffice. *)
Definition decimal_digits (n : N) : list N := decimal_digits_aux (S (N.to_nat (N.size n))) n [].

Definition digit_chars (ds : list N) : jsstring := map (fun d => 48 + d)%N ds.

(** Leading zeros dropped. *)
Fixpoint drop_zeros (ds : list N) : list N :=
  match ds with
  | 0%N :: r => drop_zeros r
  | _ => ds
  end.

(** The significant digits after the leading one, trailing zeros dropped. *)
Definition strip_trailing_zeros (ds : list N) : list N := rev (drop_zeros (rev ds)).

Definition exponent_form (ds : list N) : jsstring :=
  match ds with
  | [] => []
  | d :: rest =>
      let frac := strip_trailing_zeros rest in
      digit_chars [d] ++ (if frac is [] then [] else 46%N :: digit_chars frac) ++
      [101%N; 43%N] ++ digit_chars (decimal_digits (N.of_nat (length rest)))
  end.

Definition number_to_string (z : Z) : jsstring :=
  let ds := decimal_digits (Z.abs_N z) in
  (if (z <? 0)%Z then [45%N] else []) ++
  (if (Z.abs_N z <? 10 ^ 21)%N then digit_chars ds else exponent_form ds).

Lemma decimal_digits_aux_value f n acc :
  (n < 2 ^ N.of_nat f)%N ->
  digits_value 10 (decimal_digits_aux f n acc) = fold_left (fun a d => a * 10 + d)%N acc n.
Proof.
  unfold digits_value. revert n acc. induction f as [|f IH]; intros n acc Hn; simpl.
  - simpl in Hn. by replace n with 0%N by lia.
  - destruct (N.ltb_spec n 10) as [Hlt|Hge]; [done|].
    rewrite IH; simpl.
    + f_equal. pose proof (N.div_mod n 10 ltac:(lia)). lia.
    + rewrite Nat2N.inj_succ, N.pow_succ_r' in Hn.
      pose proof (N.div_mod n 10 ltac:(lia)). pose proof (N.mod_lt n 10 ltac:(lia)).
      set (X := (2 ^ N.of_nat f)%N) in *. set (q := (n / 10)%N) in *. set (r := (n mod 10)%N) in *. lia.
Qed.

Lemma decimal_digits_aux_lt f n acc :
  Forall (fun d => (d < 10)%N) acc -> Forall (fun d => (d < 10)%N) (decimal_digits_aux f n acc).
Proof.
  revert n acc. induction f as [|f IH]; intros n acc Hacc; simpl; [done|].
  destruct (N.ltb_spec n 10); [by constructor|].
  apply IH. constructor; [apply N.mod_lt; lia | done].
Qed.

Lemma decimal_digits_aux_nonempty f n acc :
  acc <> [] -> decimal_digits_aux f n acc <> [].
Proof.
  revert n acc. induction f as [|f IH]; intros n acc Hacc; simpl; [done|].
  destruct (n <? 10)%N; [done|]. by apply IH.
Qed.

Lemma decimal_digits_value n : digits_value 10 (decimal_digits n) = n.
Proof.
  unfold decimal_digits. rewrite decimal_digits_aux_value; [done|].
  rewrite Nat2N.inj_succ, N2Nat.id, N.pow_succ_r'. pose proof (N.size_gt n). lia.
Qed.

Lemma decimal_digits_lt n : Forall (fun d => (d < 10)%N) (decimal_digits n).
Proof. apply decimal_digits_aux_lt. constructor. Qed.

Lemma decimal_digits_nonempty n : decimal_digits n <> [].
Proof.
  unfold decimal_digits. simpl. destruct (n <? 10)%N; [done|].
  apply decimal_digits_aux_nonempty. done.
Qed.

Lemma digit_prefix_app ds t :
  Forall (fun d => (d < 10)%N) ds -> digit_prefix 10 (digit_chars ds ++ t) = ds ++ digit_prefix 10 t.
Proof.
  induction 1 as [|d ds Hd _ IH]; simpl; [done|].
  unfold digit_value. destruct (N.leb_spec 48 (48 + d)); [|lia].
  destruct (N.leb_spec (48 + d) 57); [|lia]. simpl.
  replace (48 + d - 48)%N with d by lia.
  destruct (N.ltb_spec d 10); [|lia]. by rewrite IH.
Qed.

#[export] Hint Resolve decimal_digits_lt decimal_digits_nonempty : brainflip.

Definition sign_chars (neg : bool) : jsstring := if neg then [45%N] else [].

(** [parseInt] on an optional minus sign, decimal digits and a tail that
    starts with neither a digit nor the [x] of a hexadecimal prefix. *)
Lemma parseInt_digits neg ds t :
  ds <> [] -> Forall (fun d => (d < 10)%N) ds -> digit_prefix 10 t = [] ->
  (forall t', t <> 120%N :: t' /\ t <> 88%N :: t') ->
  parseInt (sign_chars neg ++ digit_chars ds ++ t) =
  Num ((if neg then -1 else 1) * Z.of_N (digits_value 10 ds))%Z.
Proof.
  intros Hne Hds Ht Hx. destruct ds as [|d ds]; [done|].
  inversion Hds as [|? ? Hd Hds']; subst.
  assert (Hr : parse_radix (digit_chars (d :: ds) ++ t) = (10%N, digit_chars (d :: ds) ++ t)).
  { unfold parse_radix. destruct ds as [|d' ds']; cbn [digit_chars map app].
    - destruct t as [|x t']; [done|]. destruct (Hx t') as [H1 H2].
      destruct (N.eqb_spec x 120); [subst; done|]. destruct (N.eqb_spec x 88); [subst; done|].
      by rewrite !orb_false_r, andb_false_r.
    - inversion Hds' as [|? ? Hd' _]; subst.
      destruct (N.eqb_spec (48 + d') 120); [lia|]. destruct (N.eqb_spec (48 + d') 88); [lia|].
      by rewrite andb_false_r. }
  assert (Hp : digit_prefix 10 (digit_chars (d :: ds) ++ t) = d :: ds)
    by (rewrite digit_prefix_app, Ht, app_nil_r by done; done).
  assert (Hsp : is_js_space (48 + d)%N = false) by (apply digit_not_space; lia).
  unfold parseInt. destruct neg; cbn [sign_chars app].
  - rewrite trim_start_head by reflexivity.
    change (parse_sign (45%N :: digit_chars (d :: ds) ++ t)) with ((-1)%Z, digit_chars (d :: ds) ++ t).
    cbv beta iota zeta. rewrite Hr. cbv beta iota zeta. rewrite Hp. done.
  - change (digit_chars (d :: ds) ++ t) with (@cons code_unit (48 + d)%N (digit_chars ds ++ t)).
    rewrite trim_start_head by done.
    assert (Hs : parse_sign (@cons code_unit (48 + d)%N (digit_chars ds ++ t)) =
                 (1%Z, @cons code_unit (48 + d)%N (digit_chars ds ++ t))).
    { unfold parse_sign. destruct (N.eqb_spec (48 + d) 45); [lia|].
      destruct (N.eqb_spec (48 + d) 43); [lia|]. done. }
    rewrite Hs. cbv beta iota zeta.
    change (@cons code_unit (48 + d)%N (digit_chars ds ++ t)) with (digit_chars (d :: ds) ++ t).
    rewrite Hr. cbv beta iota zeta. rewrite Hp. done.
Qed.

Lemma sign_chars_abs z :
  ((if (z <? 0)%Z then -1 else 1) * Z.of_N (Z.abs_N z))%Z = z.
Proof. destruct (Z.ltb_spec z 0); rewrite Z_of_N_abs; lia. Qed.

(** Below [10^21], [parseInt] reads back exactly what [String] printed. *)
Lemma parseInt_number_to_string z :
  (Z.abs_N z < 10 ^ 21)%N -> parseInt (number_to_string z) = Num z.
Proof.
  intros Hz. unfold number_to_string. destruct (N.ltb_spec (Z.abs_N z) (10 ^ 21)); [|lia].
  rewrite <- (app_nil_r (digit_chars _)).
  replace (if (z <? 0)%Z then [45%N] else []) with (sign_chars (z <? 0)%Z) by (by destruct (z <? 0)%Z).
  rewrite parseInt_digits by first [ by auto with brainflip | intros ?; split; discriminate ].
  by rewrite decimal_digits_value, sign_chars_abs.
Qed.

(** What [parseInt] reads from the exponent form of [z]: its leading
    digit, with its sign. *)
Definition exponent_reading (z : Z) : Z :=
  ((if (z <? 0)%Z then -1 else 1) * Z.of_N (hd 0%N (decimal_digits (Z.abs_N z))))%Z.

(** From [10^21] on, [String] switches to exponent notation and
    [parseInt] stops at the point or the [e]: it reads the leading digit. *)
Lemma parseInt_number_to_string_big z :
  (10 ^ 21 <= Z.abs_N z)%N -> parseInt (number_to_string z) = Num (exponent_reading z).
Proof.
  intros Hz. unfold number_to_string. destruct (N.ltb_spec (Z.abs_N z) (10 ^ 21)); [lia|].
  pose proof (decimal_digits_nonempty (Z.abs_N z)) as Hne.
  pose proof (decimal_digits_lt (Z.abs_N z)) as Hlt.
  destruct (decimal_digits (Z.abs_N z)) as [|d rest] eqn:Hdig; [done|]. unfold exponent_form.
  replace (if (z <? 0)%Z then [45%N] else []) with (sign_chars (z <? 0)%Z) by (by destruct (z <? 0)%Z).
  inversion Hlt as [|? ? Hd _]; subst. unfold exponent_reading. rewrite Hdig.
  rewrite parseInt_digits; [done|done|by constructor| |].
  - destruct (strip_trailing_zeros rest); reflexivity.
  - intros t'. destruct (strip_trailing_zeros rest); split; discriminate.
Qed.
