(* ===== verification/Static.v ===== *)
(** * The static components: [components/Footer.jsx] and [app-bar/SitemarkIcon.js]

    Neither component has state or handlers; each is a function from its
    inputs to what it renders.  [Footer] renders the copyright line for
    the year of [new Date()], which is its only input.  [NestWiseIcon]
    renders a fixed SVG: two text lines in a 200 by 60 view box.  The
    model keeps the text, the positions and the colours; colours are
    parsed from their [#rrggbbaa] notation, which is how the comments'
    colour names can be compared with the code. *)

From S2P Require Import Prelude JsString.
From Stdlib Require Import Ascii.

(** ** [Footer] *)

(** The JSX text [&copy; {new Date().getFullYear()} Flashcard App. All
    rights reserved.]: the copyright sign (U+00A9), a space, the year as
    [String] prints it, and the rest of the line (JSX drops the line
    breaks and indentation around it). *)
Definition Footer (year : Z) : jsstring :=
  [169%N; 32%N] ++ number_to_string year ++ js " Flashcard App. All rights reserved.".

(** ** [NestWiseIcon] *)

Record svg_text := {
  text_x : Z;
  text_y : Z;
  fill : string;
  fontFamily : string;
  fontSize : Z;
  fontWeight : string;
  content : string
}.

Record svg_icon := {
  sx_height : Z;            (* the [sx] of [SvgIcon] *)
  sx_width : Z;
  sx_mr : Z;
  width : Z;
  height : Z;
  viewBox : Z * Z * Z * Z;
  texts : list svg_text
}.

(** Lines 4-40. *)
Definition NestWiseIcon : svg_icon :=
  {| sx_height := 60; sx_width := 200; sx_mr := 2;
     width := 200; height := 60; viewBox := (0, 0, 200, 60)%Z;
     texts := [
       {| text_x := 0; text_y := 25; fill := "#0091ffff"; fontFamily := "Arial, sans-serif";
          fontSize := 25; fontWeight := "bold"; content := "Smart View" |};
       {| text_x := 0; text_y := 55; fill := "#00ffd0ff"; fontFamily := "Arial, sans-serif";
          fontSize := 25; fontWeight := "bold"; content := "Flashcards" |}] |}.

(** A hexadecimal digit of a CSS colour. *)
Definition hex_digit (c : Ascii.ascii) : option N :=
  let n := Ascii.N_of_ascii c in
  if (48 <=? n)%N && (n <=? 57)%N then Some (n - 48)%N
  else if (97 <=? n)%N && (n <=? 102)%N then Some (n - 87)%N
  else if (65 <=? n)%N && (n <=? 70)%N then Some (n - 55)%N
  else None.

Definition hex_byte (a b : Ascii.ascii) : option N :=
  match hex_digit a, hex_digit b with
  | Some x, Some y => Some (16 * x + y)%N
  | _, _ => None
  end.

(** [#rrggbbaa] as red, green, blue and alpha. *)
Definition parse_color (s : string) : option (N * N * N * N) :=
  match s with
  | String "#"%char (String r1 (String r2 (String g1 (String g2 (String b1 (String b2
      (String a1 (String a2 EmptyString)))))))) =>
      match hex_byte r1 r2, hex_byte g1 g2, hex_byte b1 b2, hex_byte a1 a2 with
      | Some r, Some g, Some b, Some a => Some (r, g, b, a)
      | _, _, _, _ => None
      end
  | _ => None
  end.

(** Colours with no red at all: blue, cyan and their mixtures, never gold
    or brown, which are mostly red. *)
Definition redless (c : N * N * N * N) : bool := (c.1.1.1 =? 0)%N.

(** The vertical extent of a text line, from its baseline up one font
    size. *)
Definition fits_vertically (icon : svg_icon) (t : svg_text) : bool :=
  (0 <=? text_y t - fontSize t)%Z && (text_y t <=? height icon)%Z.

(** ** Lemmas *)

(** C37: the footer shows the year: [parseInt] of the text after the copyright
    sign and space reads the year back, for every year [String] prints in
    plain decimal. *)
Lemma Footer_year year :
  (Z.abs_N year < 10 ^ 21)%N -> parseInt (drop 2 (Footer year)) = Num year.
Proof.
  intros Hy. unfold Footer. cbn [drop app]. rewrite drop_0. unfold number_to_string. cbv zeta.
  destruct (N.ltb_spec (Z.abs_N year) (10 ^ 21)); [|lia].
  replace (if (year <? 0)%Z then [45%N] else []) with (sign_chars (year <? 0)%Z)
    by (by destruct (year <? 0)%Z).
  rewrite <- app_assoc, parseInt_digits; [| apply decimal_digits_nonempty | apply decimal_digits_lt
                                         | reflexivity | intros ?; split; discriminate].
  by rewrite decimal_digits_value, sign_chars_abs.
Qed.

(** Both text lines are drawn in red-less colours, and both lie within the
    view box. *)
Lemma NestWiseIcon_colours :
  map parse_color (map fill (texts NestWiseIcon)) = [Some (0, 145, 255, 255); Some (0, 255, 208, 255)]%N /\
  forallb (fun t => match parse_color (fill t) with Some c => redless c | None => false end)
    (texts NestWiseIcon) = true /\
  forallb (fits_vertically NestWiseIcon) (texts NestWiseIcon) = true.
Proof. split; [|split]; vm_compute; reflexivity. Qed.

(** ** Witnesses *)

Lemma Footer_year_witness :
  (Z.abs_N 2026 < 10 ^ 21)%N /\ parseInt (drop 2 (Footer 2026)) = Num 2026.
Proof. split; [vm_compute; reflexivity | apply Footer_year; vm_compute; reflexivity]. Defined.
