(* ===== verification/Regex.v ===== *)
(** * The regular expressions of the sign-in and sign-up pages

    [pages/Signin.jsx] and [pages/Signup.jsx] (lines 6-7 of each) declare

      [const emailRegex = /^[^\s@]+@[^\s@]+\.[^\s@]+$/;]
      [const passwordRegex = /^(?=.*[a-z])(?=.*[A-Z])(?=.*\d).+$/;]

    and call [emailRegex.test(email)] and [passwordRegex.test(password)].
    This file holds the fragment of ECMAScript regular expressions those
    literals use ([regex]): literal characters, bracket classes with
    ranges, [\s] and [\d], negated classes, [.], concatenation, [*], [+]
    and positive lookahead [(?=...)].  [matches_rel] is the relational
    semantics (which suffixes of the input a regex can leave after
    matching a prefix); [matches] is an executable backtracking matcher
    that lists them; [matches_sound] and [matches_complete] prove the two
    agree.  Both literals are anchored by [^] and [$] and carry no flag,
    so [test] succeeds exactly when some match consumes the whole input:
    [test_anchored].  Finally the file characterises, in plain terms, the
    strings each literal accepts. *)

From S2P Require Import Prelude JsString.

(** ** Syntax *)

(** The items of a bracket expression [[...]]. *)
Inductive class_item :=
| CChar (c : code_unit)
| CRange (lo hi : code_unit)
| CSpace
| CDigit.

Inductive regex :=
| REps
| RChar (c : code_unit)
| RClass (negated : bool) (items : list class_item)
| RDot
| RSeq (r1 r2 : regex)
| RStar (r : regex)
| RPlus (r : regex)
| RLook (r : regex).

Definition is_ascii_digit (c : code_unit) : bool := (48 <=? c)%N && (c <=? 57)%N.

Definition item_matches (it : class_item) (c : code_unit) : bool :=
  match it with
  | CChar d => (c =? d)%N
  | CRange lo hi => (lo <=? c)%N && (c <=? hi)%N
  | CSpace => is_js_space c
  | CDigit => is_ascii_digit c
  end.

Definition class_matches (negated : bool) (items : list class_item) (c : code_unit) : bool :=
  let m := existsb (fun it => item_matches it c) items in
  if negated then negb m else m.

(** ** Relational semantics

    [matches_rel r s t]: [r] matches a prefix of [s] and leaves [t]. *)
Inductive matches_rel : regex -> jsstring -> jsstring -> Prop :=
| M_eps s : matches_rel REps s s
| M_char c s : matches_rel (RChar c) (c :: s) s
| M_class neg items c s :
    class_matches neg items c = true -> matches_rel (RClass neg items) (c :: s) s
| M_dot c s : is_line_terminator c = false -> matches_rel RDot (c :: s) s
| M_seq r1 r2 s s1 s2 :
    matches_rel r1 s s1 -> matches_rel r2 s1 s2 -> matches_rel (RSeq r1 r2) s s2
| M_star_nil r s : matches_rel (RStar r) s s
| M_star_cons r s s1 s2 :
    matches_rel r s s1 -> matches_rel (RStar r) s1 s2 -> matches_rel (RStar r) s s2
| M_plus r s s1 s2 :
    matches_rel r s s1 -> matches_rel (RStar r) s1 s2 -> matches_rel (RPlus r) s s2
| M_look r s t : matches_rel r s t -> matches_rel (RLook r) s s.

#[export] Hint Constructors matches_rel : brainflip.

(** ** Executable matcher

    [star_matches f fuel s] lists what iterating the one-step matcher [f]
    can leave.  Like the RepeatMatcher of ECMA-262, an iteration that
    consumes nothing is not continued; with [fuel > length s] no result is
    lost ([star_matches_fuel]).  The order of the list is not JavaScript's
    greedy order, which [test] does not observe. *)
Fixpoint star_matches (f : jsstring -> list jsstring) (fuel : nat) (s : jsstring)
  : list jsstring :=
  match fuel with
  | O => [s]
  | S n => s :: flat_map (fun s1 => if length s1 <? length s then star_matches f n s1 else [])
                         (f s)
  end.

Fixpoint matches (r : regex) (s : jsstring) : list jsstring :=
  match r with
  | REps => [s]
  | RChar c => match s with d :: t => if (c =? d)%N then [t] else [] | [] => [] end
  | RClass neg items =>
      match s with d :: t => if class_matches neg items d then [t] else [] | [] => [] end
  | RDot => match s with d :: t => if is_line_terminator d then [] else [t] | [] => [] end
  | RSeq r1 r2 => flat_map (matches r2) (matches r1 s)
  | RStar r1 => star_matches (matches r1) (S (length s)) s
  | RPlus r1 =>
      flat_map (fun s1 => star_matches (matches r1) (S (length s1)) s1) (matches r1 s)
  | RLook r1 => match matches r1 s with [] => [] | _ :: _ => [s] end
  end.

Definition is_empty_str (s : jsstring) : bool := match s with [] => true | _ => false end.

(** [re.test(s)] for [re = /^r$/]: some match consumes the whole input. *)
Definition test_anchored (r : regex) (s : jsstring) : bool :=
  existsb is_empty_str (matches r s).

(** ** The matcher agrees with the semantics *)

Lemma matches_rel_suffix r s t : matches_rel r s t -> is_suffix t s.
Proof. induction 1; eauto with brainflip. Qed.

Section Star.
Variable f : jsstring -> list jsstring.

Lemma star_matches_fuel n m s :
  length s < n -> length s < m -> star_matches f n s = star_matches f m s.
Proof.
  revert m s. induction n as [|n IH]; intros [|m] s Hn Hm; try lia. simpl. f_equal.
  apply flat_map_ext. intros s1. destruct (Nat.ltb_spec (length s1) (length s)); [|done].
  apply IH; lia.
Qed.

Variable r : regex.
Hypothesis f_sound : forall s t, In t (f s) -> matches_rel r s t.

Lemma star_matches_sound n s t : In t (star_matches f n s) -> matches_rel (RStar r) s t.
Proof.
  revert s. induction n as [|n IH]; simpl; intros s Hin.
  - destruct Hin as [<- | []]. constructor.
  - destruct Hin as [<- | Hin]; [constructor|].
    apply in_flat_map in Hin as (s1 & Hs1 & Ht).
    destruct (length s1 <? length s); [|done]. eauto with brainflip.
Qed.
End Star.

Theorem matches_sound r s t : In t (matches r s) -> matches_rel r s t.
Proof.
  revert s t. induction r as [| c | neg items | | r1 IH1 r2 IH2 | r IH | r IH | r IH];
    intros s t Hin; simpl in Hin.
  - destruct Hin as [<- | []]. constructor.
  - destruct s as [|d s]; [done|]. destruct (N.eqb_spec c d) as [<-|]; [|done].
    destruct Hin as [<- | []]. constructor.
  - destruct s as [|d s]; [done|]. destruct (class_matches neg items d) eqn:E; [|done].
    destruct Hin as [<- | []]. by constructor.
  - destruct s as [|d s]; [done|]. destruct (is_line_terminator d) eqn:E; [done|].
    destruct Hin as [<- | []]. by constructor.
  - apply in_flat_map in Hin as (s1 & H1 & H2). eauto with brainflip.
  - exact (star_matches_sound (matches r) r IH (S (length s)) s t Hin).
  - apply in_flat_map in Hin as (s1 & H1 & H2).
    econstructor; [by apply IH|]. exact (star_matches_sound (matches r) r IH (S (length s1)) s1 t H2).
  - destruct (matches r s) as [|t' l] eqn:E; [done|].
    destruct Hin as [<- | []]. apply (M_look r s t'). apply IH. rewrite E. by left.
Qed.

Lemma star_matches_head f n s : In s (star_matches f n s).
Proof. destruct n; simpl; auto. Qed.

(** One more iteration of a strictly consuming step stays in the list. *)
Lemma star_matches_step f s s1 s2 :
  In s1 (f s) -> length s1 < length s ->
  In s2 (star_matches f (S (length s1)) s1) ->
  In s2 (star_matches f (S (length s)) s).
Proof.
  intros H1 Hlt H2. simpl. right. apply in_flat_map. exists s1. split; [done|].
  destruct (Nat.ltb_spec (length s1) (length s)); [|lia].
  rewrite (star_matches_fuel f (length s) (S (length s1))); [done | lia | lia].
Qed.

Theorem matches_complete r s t : matches_rel r s t -> In t (matches r s).
Proof.
  induction 1 as [s | c s | neg items c s Hc | c s Hc | r1 r2 s s1 s2 _ IH1 _ IH2
                 | r s | r s s1 s2 H1 IH1 H2 IH2 | r s s1 s2 _ IH1 _ IH2 | r s t _ IH];
    cbn [matches].
  - by left.
  - rewrite N.eqb_refl. by left.
  - rewrite Hc. by left.
  - rewrite Hc. by left.
  - apply in_flat_map. eauto.
  - apply star_matches_head.
  - pose proof (matches_rel_suffix _ _ _ H1) as Hsuf.
    destruct (decide (length s1 = length s)) as [Heq|Hne].
    + rewrite (is_suffix_same_length _ _ Hsuf Heq) in IH2. exact IH2.
    + apply is_suffix_length in Hsuf.
      eapply star_matches_step; [exact IH1 | lia | exact IH2].
  - apply in_flat_map. eauto.
  - destruct (matches r s); [done|]. by left.
Qed.

(** The executable matcher lists exactly the suffixes the semantics
    allows: it is sound and complete for every regex of the fragment. *)
Theorem matches_correct r s t : In t (matches r s) <-> matches_rel r s t.
Proof. split; [apply matches_sound | apply matches_complete]. Qed.

(** [test] on an anchored literal decides the semantics. *)
Theorem test_anchored_iff r s : test_anchored r s = true <-> matches_rel r s [].
Proof.
  unfold test_anchored. rewrite existsb_exists. split.
  - intros (t & Hin & Ht). destruct t; [|done]. by apply matches_correct.
  - intros H. exists []. split; [by apply matches_correct | done].
Qed.

(** ** The two literals *)

(** [[^\s@]] *)
Definition email_char_class : regex := RClass true [CSpace; CChar 64%N].

(** [/^[^\s@]+@[^\s@]+\.[^\s@]+$/] *)
Definition emailRegex : regex :=
  RSeq (RPlus email_char_class)
    (RSeq (RChar 64%N)
      (RSeq (RPlus email_char_class)
        (RSeq (RChar 46%N) (RPlus email_char_class)))).

Definition lookahead_contains (cls : regex) : regex := RLook (RSeq (RStar RDot) cls).

(** [/^(?=.*[a-z])(?=.*[A-Z])(?=.*\d).+$/] *)
Definition passwordRegex : regex :=
  RSeq (lookahead_contains (RClass false [CRange 97%N 122%N]))
    (RSeq (lookahead_contains (RClass false [CRange 65%N 90%N]))
      (RSeq (lookahead_contains (RClass false [CDigit]))
        (RPlus RDot))).

(** ** What the literals accept *)

(** A regex that matches exactly one character satisfying [P]. *)
Definition single (r : regex) (P : code_unit -> bool) : Prop :=
  forall s t, matches_rel r s t <-> exists c, P c = true /\ s = c :: t.

Definition chars_ok (P : code_unit -> bool) (l : jsstring) : Prop :=
  Forall (fun c => P c = true) l.

Lemma single_class neg items : single (RClass neg items) (class_matches neg items).
Proof.
  intros s t. split.
  - inversion 1; subst. eauto.
  - intros (c & Hc & ->). by constructor.
Qed.

Lemma single_dot : single RDot (fun c => negb (is_line_terminator c)).
Proof.
  intros s t. split.
  - inversion 1; subst. eexists. split; [by apply negb_true_split | done].
  - intros (c & Hc & ->). constructor. by apply negb_true_split.
Qed.

Lemma seq_iff r1 r2 s t :
  matches_rel (RSeq r1 r2) s t <-> exists s1, matches_rel r1 s s1 /\ matches_rel r2 s1 t.
Proof. split; [inversion 1; subst; eauto | intros (s1 & ? & ?); eauto with brainflip]. Qed.

Lemma look_iff r s t : matches_rel (RLook r) s t <-> t = s /\ exists t', matches_rel r s t'.
Proof. split; [inversion 1; subst; eauto | intros (-> & t' & ?); eauto with brainflip]. Qed.

Lemma char_iff c s t : matches_rel (RChar c) s t <-> s = c :: t.
Proof. split; [inversion 1; done | intros ->; constructor]. Qed.

Section Single.
Variables (r : regex) (P : code_unit -> bool).
Hypothesis HP : single r P.

Lemma star_single s t :
  matches_rel (RStar r) s t <-> exists p, chars_ok P p /\ s = p ++ t.
Proof.
  split.
  - intros H. remember (RStar r) as r0 eqn:E. revert E.
    induction H; intros E; inversion E; subst.
    + exists []. split; [constructor | done].
    + apply HP in H as (c & Hc & ->). destruct IHmatches_rel2 as (p & Hp & ->); [done|].
      exists (c :: p). split; [by constructor | done].
  - intros (p & Hp & ->). induction Hp as [|c p Hc _ IH]; simpl; [constructor|].
    econstructor; [apply HP; eauto | exact IH].
Qed.

Lemma plus_single s t :
  matches_rel (RPlus r) s t <-> exists p, p <> [] /\ chars_ok P p /\ s = p ++ t.
Proof.
  split.
  - inversion 1 as [| | | | | | | r' s' s1 s2 H1 H2 |]; subst.
    apply HP in H1 as (c & Hc & ->). apply star_single in H2 as (p & Hp & ->).
    exists (c :: p). split; [done|]. split; [by constructor | done].
  - intros ([|c p] & Hne & Hp & ->); [done|]. inversion Hp; subst.
    econstructor; [apply HP; eauto | apply star_single; eauto].
Qed.
End Single.

(** [(?=.*X)] holds at the start of [s] when some character satisfying [X]
    is preceded only by non-line-terminators. *)
Lemma lookahead_contains_iff cls P s t :
  single cls P ->
  matches_rel (lookahead_contains cls) s t <->
  t = s /\ exists p c u, chars_ok (fun c => negb (is_line_terminator c)) p /\
                         P c = true /\ s = p ++ c :: u.
Proof.
  intros HP. unfold lookahead_contains. rewrite look_iff. apply and_iff_compat_l. split.
  - intros (t' & H). apply seq_iff in H as (s1 & Hs & Hc).
    apply (star_single _ _ single_dot) in Hs as (p & Hp & ->).
    apply HP in Hc as (c & Hc & ->). eauto 6.
  - intros (p & c & u & Hp & Hc & ->). exists u. apply seq_iff. exists (c :: u).
    split; [apply (star_single _ _ single_dot); eauto | apply HP; eauto].
Qed.

Lemma single_ext r P Q : (forall c, P c = Q c) -> single r P -> single r Q.
Proof.
  intros Hext HP s t. rewrite (HP s t).
  split; intros (c & Hc & ->); exists c; by rewrite Hext in *.
Qed.

Lemma chars_ok_app P l1 l2 : chars_ok P (l1 ++ l2) <-> chars_ok P l1 /\ chars_ok P l2.
Proof. apply Forall_app. Qed.

Lemma chars_ok_cons P c l : chars_ok P (c :: l) <-> P c = true /\ chars_ok P l.
Proof. split; [inversion 1; auto | intros [??]; by constructor]. Qed.

#[export] Hint Rewrite chars_ok_app chars_ok_cons : brainflip_rw.

(** Inside a string whose characters all satisfy [Q], "some character
    satisfies [P]" is "some [P] character is preceded by [Q] ones". *)
Lemma existsb_split_prefix (Q P : code_unit -> bool) s :
  chars_ok Q s ->
  (existsb P s = true <-> exists p c u, chars_ok Q p /\ P c = true /\ s = p ++ c :: u).
Proof.
  intros HQ. rewrite existsb_exists. split.
  - intros (c & Hin & Hc). apply in_split in Hin as (p & u & ->).
    apply chars_ok_app in HQ as [Hp _]. eauto 6.
  - intros (p & c & u & _ & Hc & ->). exists c. split; [|done].
    apply in_or_app. right. by left.
Qed.

Definition email_char (c : code_unit) : bool := negb (is_js_space c || (c =? 64)%N).

Lemma email_char_class_single : single email_char_class email_char.
Proof.
  eapply single_ext; [|apply single_class]. intros c.
  unfold class_matches, email_char. simpl. by rewrite orb_false_r.
Qed.

(** The strings [emailRegex] accepts, by the shape of [a@b.c]. *)
Lemma emailRegex_shape s :
  test_anchored emailRegex s = true <->
  exists a b c, a <> [] /\ b <> [] /\ c <> [] /\
    chars_ok email_char a /\ chars_ok email_char b /\ chars_ok email_char c /\
    s = a ++ 64%N :: b ++ 46%N :: c.
Proof.
  pose proof (plus_single _ _ email_char_class_single) as Hplus.
  rewrite test_anchored_iff. unfold emailRegex. split.
  - intros H. apply seq_iff in H as (s1 & H1 & H).
    apply Hplus in H1 as (a & Ha & Hca & ->).
    apply seq_iff in H as (s2 & H2 & H). apply char_iff in H2 as ->.
    apply seq_iff in H as (s3 & H3 & H). apply Hplus in H3 as (b & Hb & Hcb & ->).
    apply seq_iff in H as (s4 & H4 & H5). apply char_iff in H4 as ->.
    apply Hplus in H5 as (c & Hc & Hcc & Heq). rewrite app_nil_r in Heq. subst.
    exists a, b, c. done.
  - intros (a & b & c & Ha & Hb & Hc & Hca & Hcb & Hcc & ->).
    apply seq_iff. exists (64%N :: b ++ 46%N :: c). split; [apply Hplus; eauto|].
    apply seq_iff. exists (b ++ 46%N :: c). split; [by apply char_iff|].
    apply seq_iff. exists (46%N :: c). split; [apply Hplus; eauto|].
    apply seq_iff. exists c. split; [by apply char_iff|].
    apply Hplus. exists c. rewrite app_nil_r. done.
Qed.

(** C22: [emailRegex.test(s)] holds exactly for [a@b.c] where [a], [b] and
    [c] are non-empty and contain neither white space nor [@]. *)
Theorem emailRegex_spec s :
  test_anchored emailRegex s = true <->
  exists a b c, a <> [] /\ b <> [] /\ c <> [] /\
    chars_ok email_char a /\ chars_ok email_char b /\ chars_ok email_char c /\
    s = a ++ 64%N :: b ++ 46%N :: c.
Proof. apply emailRegex_shape. Qed.

Definition is_ascii_lower (c : code_unit) : bool := (97 <=? c)%N && (c <=? 122)%N.
Definition is_ascii_upper (c : code_unit) : bool := (65 <=? c)%N && (c <=? 90)%N.
Definition not_line_terminator (c : code_unit) : bool := negb (is_line_terminator c).

Lemma single_range lo hi :
  single (RClass false [CRange lo hi]) (fun c => (lo <=? c)%N && (c <=? hi)%N).
Proof.
  eapply single_ext; [|apply single_class]. intros c. unfold class_matches. simpl.
  by rewrite orb_false_r.
Qed.

Lemma single_digit : single (RClass false [CDigit]) is_ascii_digit.
Proof.
  eapply single_ext; [|apply single_class]. intros c. unfold class_matches. simpl.
  by rewrite orb_false_r.
Qed.

Lemma seq_lookahead_iff cls P rest s t :
  single cls P ->
  matches_rel (RSeq (lookahead_contains cls) rest) s t <->
  (exists p c u, chars_ok not_line_terminator p /\ P c = true /\ s = p ++ c :: u) /\
  matches_rel rest s t.
Proof.
  intros HP. rewrite seq_iff. split.
  - intros (s1 & H1 & H2). apply (lookahead_contains_iff _ _ _ _ HP) in H1 as (-> & H1). done.
  - intros [H1 H2]. exists s. split; [apply (lookahead_contains_iff _ _ _ _ HP) | ]; done.
Qed.

(** The direct check that the three lookaheads and [.+] amount to. *)
Definition password_ok (s : jsstring) : bool :=
  str_truthy s && forallb not_line_terminator s &&
  existsb is_ascii_lower s && existsb is_ascii_upper s && existsb is_ascii_digit s.

(** [passwordRegex] computes [password_ok]. *)
Lemma passwordRegex_direct s : test_anchored passwordRegex s = password_ok s.
Proof.
  apply Bool.eq_iff_eq_true. rewrite test_anchored_iff. unfold passwordRegex, password_ok.
  rewrite (seq_lookahead_iff _ _ _ _ _ (single_range 97%N 122%N)),
          (seq_lookahead_iff _ _ _ _ _ (single_range 65%N 90%N)),
          (seq_lookahead_iff _ _ _ _ _ single_digit),
          (plus_single _ _ single_dot).
  bool_to_prop. rewrite forallb_Forall. fold (chars_ok not_line_terminator s).
  split.
  - intros (Hl & Hu & Hd & p & Hp & Hcp & Hs). rewrite app_nil_r in Hs. subst p.
    destruct s as [|c s]; [done|].
    rewrite !(existsb_split_prefix not_line_terminator); auto.
  - intros ((((Ht & Hcs) & Hl) & Hu) & Hd).
    rewrite !(existsb_split_prefix not_line_terminator) in Hl, Hu, Hd by done.
    split; [done|]. split; [done|]. split; [done|].
    exists s. rewrite app_nil_r. destruct s; done.
Qed.

(** C23: [passwordRegex.test(s)] is the direct check: [s] is non-empty, has
    no line terminator (the [.] of [.+] and of the lookaheads stops at
    one), and contains a lower-case ASCII letter, an upper-case ASCII
    letter and an ASCII digit. *)
Theorem passwordRegex_test s : test_anchored passwordRegex s = password_ok s.
Proof. apply passwordRegex_direct. Qed.
