(* ===== verification/Signin.v ===== *)
(** * The sign-in page ([src/frontend/src/pages/Signin.jsx])

    The component keeps three pieces of React state, [email], [password]
    and [error] ([signin_state]).  [validate] runs the four checks of the
    source in order and stores the first failing message in [error] (or
    clears it); [handleSubmit] navigates to [/dashboard] when [validate]
    succeeds.  The page's events (typing in either input, submitting, the
    two navigation buttons) are [signin_event], and [step] is the handler
    each one runs.  Navigation is an output effect of a step.  The theorems
    say when sign-in is accepted, that the error shown is empty exactly
    when it is, and that the only way to reach [/dashboard] is a submit
    with valid credentials. *)

From S2P Require Import Prelude JsString Regex.

Record signin_state := {
  email : jsstring;
  password : jsstring;
  error : string
}.

(** What a handler does besides changing the component state. *)
Inductive effect :=
| Navigate (path : string).

Definition setEmail (v : jsstring) (st : signin_state) : signin_state :=
  {| email := v; password := password st; error := error st |}.
Definition setPassword (v : jsstring) (st : signin_state) : signin_state :=
  {| email := email st; password := v; error := error st |}.
Definition setError (v : string) (st : signin_state) : signin_state :=
  {| email := email st; password := password st; error := v |}.

Definition initial_state : signin_state := {| email := []; password := []; error := "" |}.

(** [validate] (lines 15-34): returns its boolean and the state after its
    [setError] call. *)
Definition validate (st : signin_state) : bool * signin_state :=
  if negb (str_truthy (trim (email st))) then (false, setError "Email is required." st)
  else if negb (test_anchored emailRegex (email st)) then
    (false, setError "Please enter a valid email address." st)
  else if negb (str_truthy (password st)) then (false, setError "Password is required." st)
  else if negb (test_anchored passwordRegex (password st)) then
    (false, setError
       "Password must include at least one uppercase, one lowercase letter, and one digit." st)
  else (true, setError "" st).

(** [handleSubmit] (lines 36-42); [e.preventDefault()] keeps the browser on
    the page, so a failed validation has no effect besides the state. *)
Definition handleSubmit (st : signin_state) : signin_state * list effect :=
  let (ok, st') := validate st in
  if ok then (st', [Navigate "/dashboard"]) else (st', []).

Inductive signin_event :=
| ChangeEmail (v : jsstring)      (* onChange of the email input, line 65 *)
| ChangePassword (v : jsstring)   (* onChange of the password input, line 73 *)
| Submit                          (* onSubmit of the form, line 59 *)
| ClickHome                       (* the "home" button, line 51 *)
| ClickSignup.                    (* the "Signup" button, line 84 *)

Definition step (st : signin_state) (ev : signin_event) : signin_state * list effect :=
  match ev with
  | ChangeEmail v => (setEmail v st, [])
  | ChangePassword v => (setPassword v st, [])
  | Submit => handleSubmit st
  | ClickHome => (st, [Navigate "/"])
  | ClickSignup => (st, [Navigate "/signup"])
  end.

(** The error banner ([{error && <div>...</div>}], line 77) is shown when
    [error] is a non-empty string. *)
Definition shown_error (st : signin_state) : option string :=
  match error st with EmptyString => None | e => Some e end.

(** Credentials the page accepts, in the terms of [Regex]. *)
Definition credentials_ok (e p : jsstring) : bool :=
  test_anchored emailRegex e && password_ok p.

(** ** Lemmas *)

(** An address [emailRegex] accepts contains [@], which is not white
    space, so it is not blank: the first check of [validate] never decides
    on its own. *)
Lemma email_valid_not_blank e : test_anchored emailRegex e = true -> str_truthy (trim e) = true.
Proof.
  intros (a & b & c & _ & _ & _ & _ & _ & _ & ->)%emailRegex_shape.
  destruct (trim _) eqn:E; [|done]. apply trim_nil_iff in E.
  apply Forall_app in E as [_ E]. inversion E. discriminate.
Qed.

Lemma password_ok_truthy p : password_ok p = true -> str_truthy p = true.
Proof. unfold password_ok. bool_to_prop. tauto. Qed.

Lemma validate_state st : snd (validate st) = setError (error (snd (validate st))) st.
Proof. unfold validate. repeat case_match; done. Qed.

(** ** Theorems *)

(** When sign-in validation succeeds. *)
Lemma validate_accepts st :
  fst (validate st) = true <-> credentials_ok (email st) (password st) = true.
Proof.
  unfold validate, credentials_ok. rewrite <- passwordRegex_direct.
  destruct (test_anchored emailRegex (email st)) eqn:He;
    [rewrite (email_valid_not_blank _ He) | destruct (str_truthy (trim (email st)))];
    simpl; [|done|done].
  destruct (test_anchored passwordRegex (password st)) eqn:Hp;
    [rewrite passwordRegex_direct in Hp; rewrite (password_ok_truthy _ Hp)
    | destruct (str_truthy (password st))]; done.
Qed.

(** C5: sign-in validation succeeds exactly when [emailRegex] accepts the
    email and [passwordRegex] the password: the blank and empty checks
    only choose the message. *)
Theorem validate_ok_iff st :
  fst (validate st) = true <-> credentials_ok (email st) (password st) = true.
Proof. apply validate_accepts. Qed.

(** The page shows an error exactly when validation fails, so a
    rejected submit always explains itself and an accepted one clears a
    previous message. *)
Theorem validate_error_shown st :
  shown_error (snd (validate st)) = None <-> fst (validate st) = true.
Proof. unfold validate. repeat case_match; done. Qed.

(** C36: a step navigates to [/dashboard] only on submit, and only when the
    current email and password are accepted; every other event either
    stays on the page or goes to [/] or [/signup]. *)
Theorem step_dashboard_only_valid st ev st' effs :
  step st ev = (st', effs) -> In (Navigate "/dashboard") effs ->
  ev = Submit /\ credentials_ok (email st) (password st) = true.
Proof.
  intros Hstep Hin. destruct ev; simpl in Hstep;
    try (injection Hstep as <- <-; simpl in Hin; intuition discriminate).
  unfold handleSubmit in Hstep. destruct (validate st) as [ok st''] eqn:Hv.
  destruct ok; injection Hstep as <- <-; [|done].
  split; [done|]. apply validate_accepts. by rewrite Hv.
Qed.

(** A filled-in form used by the witnesses. *)
Definition demo_filled : signin_state :=
  setPassword (js "Secret1") (setEmail (js "ann@example.com") initial_state).

(** Witness: a submit with valid credentials reaches the dashboard. *)
Lemma step_dashboard_only_valid_witness :
  step demo_filled Submit = (setError "" demo_filled, [Navigate "/dashboard"]) /\
  (Submit = Submit /\ credentials_ok (email demo_filled) (password demo_filled) = true).
Proof.
  assert (H : step demo_filled Submit = (setError "" demo_filled, [Navigate "/dashboard"]))
    by (vm_compute; reflexivity).
  split; [exact H|].
  apply (step_dashboard_only_valid demo_filled Submit _ _ H). simpl. left. reflexivity.
Defined.
