(* ===== verification/Signup.v ===== *)
(** * The sign-up page ([src/frontend/src/pages/Signup.jsx])

    The component keeps [name], [email], [password], [confirmPassword]
    and the [errors] object ([signup_state]).  [validate] builds a fresh
    object [e] field by field with the source's if / else-if chains, stores
    it with [setErrors] and succeeds when [Object.keys(e).length === 0].
    The object is a [gmap string string] (a JavaScript object used as a
    map; [Object.keys(e).length] is [size e]).  The theorems say exactly
    when sign-up is accepted and when a submit navigates; that along any
    run of events ([run]) the errors object stays well typed
    ([errors_wf]: keys among the four form fields, non-empty messages),
    so every stored message is shown ([shown_errors]).  The acceptance
    condition is stated with sign-in's [credentials_ok]: sign-up accepts
    exactly the credentials sign-in accepts, plus a non-blank name and a
    matching confirmation.
    [step] is the page's event handler: the four inputs' setters, the
    submit, and the two navigation buttons. *)

From S2P Require Import Prelude JsString Regex Signin.

#[local] Set Warnings "-clear-no-such-hyp".

(** The component [Signup], its state and handlers. *)
Module SignupPage.

Record signup_state := {
  name : jsstring;
  email : jsstring;
  password : jsstring;
  confirmPassword : jsstring;
  errors : gmap string string
}.

Definition setErrors (e : gmap string string) (st : signup_state) : signup_state :=
  {| name := name st; email := email st; password := password st;
     confirmPassword := confirmPassword st; errors := e |}.

Definition initial_state : signup_state :=
  {| name := []; email := []; password := []; confirmPassword := []; errors := ∅ |}.

(** [validate] (lines 17-29). *)
Definition validate (st : signup_state) : bool * signup_state :=
  let e : gmap string string := ∅ in
  let e := if negb (str_truthy (trim (name st)))
           then <["name" := "Name is required."]> e else e in
  let e := if negb (str_truthy (trim (email st)))
           then <["email" := "Email is required."]> e
           else if negb (test_anchored emailRegex (email st))
           then <["email" := "Enter a valid email address."]> e else e in
  let e := if negb (str_truthy (password st))
           then <["password" := "Password is required."]> e
           else if negb (test_anchored passwordRegex (password st))
           then <["password" := "Password must include at least one uppercase, one lowercase letter, and one digit."]> e
           else e in
  let e := if negb (str_truthy (confirmPassword st))
           then <["confirmPassword" := "Please confirm your password."]> e
           else if negb (bool_decide (password st = confirmPassword st))
           then <["confirmPassword" := "Passwords do not match."]> e else e in
  (Nat.eqb (size e) 0, setErrors e st).

(** [handleSubmit] (lines 31-37). *)
Definition handleSubmit (st : signup_state) : signup_state * list effect :=
  let (ok, st') := validate st in
  if ok then (st', [Navigate "/dashboard"]) else (st', []).

(** The [useState] setters (lines 11-14). *)
Definition setName (v : jsstring) (st : signup_state) : signup_state :=
  {| name := v; email := email st; password := password st;
     confirmPassword := confirmPassword st; errors := errors st |}.

Definition setEmail (v : jsstring) (st : signup_state) : signup_state :=
  {| name := name st; email := v; password := password st;
     confirmPassword := confirmPassword st; errors := errors st |}.

Definition setPassword (v : jsstring) (st : signup_state) : signup_state :=
  {| name := name st; email := email st; password := v;
     confirmPassword := confirmPassword st; errors := errors st |}.

Definition setConfirmPassword (v : jsstring) (st : signup_state) : signup_state :=
  {| name := name st; email := email st; password := password st;
     confirmPassword := v; errors := errors st |}.

Inductive signup_event :=
| ChangeName (v : jsstring)             (* line 52 *)
| ChangeEmail (v : jsstring)            (* line 55 *)
| ChangePassword (v : jsstring)         (* line 58 *)
| ChangeConfirmPassword (v : jsstring)  (* line 61 *)
| Submit                                (* onSubmit of the form, line 51 *)
| ClickHome                             (* the "home" button, line 46 *)
| ClickSignin.                          (* "Back to Sign In", line 67 *)

(** The handlers of the JSX (lines 38-71). *)
Definition step (st : signup_state) (ev : signup_event) : signup_state * list effect :=
  match ev with
  | ChangeName v => (setName v st, [])
  | ChangeEmail v => (setEmail v st, [])
  | ChangePassword v => (setPassword v st, [])
  | ChangeConfirmPassword v => (setConfirmPassword v st, [])
  | Submit => handleSubmit st
  | ClickHome => (st, [Navigate "/"])
  | ClickSignin => (st, [Navigate "/signin"])
  end.

(** The keys the page renders an error for (lines 53-62). *)
Definition form_fields : gset string := {[ "name"; "email"; "password"; "confirmPassword" ]}.

(** The four [{errors.f && <div>{errors.f}</div>}] of lines 53-62, in
    page order: a field's message is shown when it is present and truthy
    (a non-empty string). *)
Definition field_order : list string := ["name"; "email"; "password"; "confirmPassword"].

Definition shown_errors (st : signup_state) : list string :=
  omap (fun f => match errors st !! f with
                 | Some m => if String.eqb m "" then None else Some m
                 | None => None
                 end) field_order.

(** A sequence of events handled one after the other, with the effects
    in order.  A navigation unmounts the page in the browser; the run goes
    on regardless, which only makes statements about every run stronger. *)
Fixpoint run (evs : list signup_event) (st : signup_state) : signup_state * list effect :=
  match evs with
  | [] => (st, [])
  | ev :: evs' =>
      let '(st1, e1) := step st ev in
      let '(st2, e2) := run evs' st1 in (st2, e1 ++ e2)
  end.

End SignupPage.
Import SignupPage.

(** The type of the [errors] object the page relies on: its keys are form
    fields and its messages are truthy, so [{errors.f && ...}] shows each. *)
Definition errors_wf (e : gmap string string) : Prop :=
  dom e ⊆ form_fields /\ map_Forall (fun _ m => m <> "") e.

Lemma insert_ne_empty (m : gmap string string) k v : <[k:=v]> m = ∅ <-> False.
Proof. split; [apply insert_non_empty | done]. Qed.

Lemma validate_errors_wf st : errors_wf (errors (snd (validate st))).
Proof.
  unfold validate, errors_wf, form_fields. simpl.
  repeat case_match; split; rewrite ?dom_insert_L, ?dom_empty_L; try set_solver;
    repeat (apply map_Forall_insert_2; [discriminate|]); apply map_Forall_empty.
Qed.

Lemma step_errors_wf st ev : errors_wf (errors st) -> errors_wf (errors (fst (step st ev))).
Proof.
  intros Hwf. destruct ev; simpl; try done.
  unfold handleSubmit. pose proof (validate_errors_wf st) as Hv.
  by destruct (validate st) as [[] st'].
Qed.

Lemma run_errors_wf evs st : errors_wf (errors st) -> errors_wf (errors (fst (run evs st))).
Proof.
  revert st. induction evs as [|ev evs IH]; intros st Hwf; simpl; [done|].
  pose proof (step_errors_wf st ev Hwf) as Hst. destruct (step st ev) as [st1 e1].
  specialize (IH st1 Hst). by destruct (run evs st1).
Qed.

(** With well-typed errors, the rendered messages are the stored ones. *)
Lemma shown_errors_all st : errors_wf (errors st) -> length (shown_errors st) = size (errors st).
Proof.
  intros [Hdom Hne]. rewrite <- (length_omap_lookup (errors st) field_order).
  - f_equal. apply list_omap_ext, Forall_Forall2_diag, Forall_forall. intros f _.
    destruct (errors st !! f) as [m|] eqn:Hf; [|done].
    specialize (Hne f m Hf). simpl in Hne. by rewrite (proj2 (String.eqb_neq m "") Hne).
  - apply (bool_decide_unpack _). by vm_compute.
  - unfold form_fields in Hdom. simpl. set_solver.
Qed.

(** ** Theorems *)

(** When sign-up validation succeeds. *)
Lemma signup_validate_accepts st :
  fst (validate st) = true <->
  str_truthy (trim (name st)) = true /\
  credentials_ok (email st) (password st) = true /\
  confirmPassword st = password st.
Proof.
  pose proof (email_valid_not_blank (email st)) as Hblank.
  pose proof (password_ok_truthy (password st)) as Hempty.
  unfold validate, credentials_ok. simpl. rewrite Nat.eqb_eq, map_size_empty_iff.
  rewrite <- passwordRegex_direct in *.
  repeat case_match; bool_to_prop; rewrite ?insert_ne_empty.
  all: first
    [ split; [contradiction | intros (Hn & [He Hp] & Hc)];
      specialize (Hblank He); specialize (Hempty Hp); rewrite ?Hc in *; congruence
    | split; [intros _; repeat split; auto | done] ].
Qed.

(** C20: sign-up validation succeeds exactly when the name is not blank,
    sign-in would accept the email and password, and the confirmation is
    the same string as the password. *)
Theorem signup_validate_ok_iff st :
  fst (validate st) = true <->
  str_truthy (trim (name st)) = true /\
  credentials_ok (email st) (password st) = true /\
  confirmPassword st = password st.
Proof. apply signup_validate_accepts. Qed.

(** Submitting the sign-up form navigates to the dashboard exactly when
    the name is not blank, sign-in would accept the email and password and
    the confirmation matches; then no error is left on the page, and
    otherwise the page stays and shows at least one error. *)
Theorem signup_submit_dashboard_iff st :
  let C := str_truthy (trim (name st)) = true /\ credentials_ok (email st) (password st) = true /\
           confirmPassword st = password st in
  (snd (step st Submit) = [Navigate "/dashboard"] <-> C) /\
  (C -> errors (fst (step st Submit)) = ∅) /\
  (~ C -> snd (step st Submit) = [] /\ errors (fst (step st Submit)) <> ∅).
Proof.
  intros C. pose proof (signup_validate_accepts st) as Hiff. fold C in Hiff. simpl. unfold handleSubmit.
  destruct (validate st) as [ok st'] eqn:Hv. simpl in Hiff.
  assert (He : ok = Nat.eqb (size (errors st')) 0) by (unfold validate in Hv; by injection Hv as <- <-).
  destruct ok; simpl.
  - split; [by rewrite <- Hiff|]. split; [|by intros []; apply Hiff].
    intros _. symmetry in He. by apply Nat.eqb_eq, map_size_empty_iff in He.
  - split; [rewrite <- Hiff; split; discriminate|]. split; [intros HC; by apply Hiff in HC|].
    intros _. split; [done|]. intros Hemp. rewrite Hemp, map_size_empty in He. discriminate.
Qed.

(** C21: the [errors] object is well typed in every state the page reaches:
    whatever the events, its keys are among the four form fields and each
    message is a non-empty string, so every stored error is on the page
    (as many messages are shown as the object has keys). *)
Theorem signup_errors_rendered evs :
  let st := fst (run evs initial_state) in
  errors_wf (errors st) /\ length (shown_errors st) = size (errors st).
Proof.
  intros st. assert (Hwf : errors_wf (errors st)).
  { apply run_errors_wf. split; [set_solver | apply map_Forall_empty]. }
  split; [done | by apply shown_errors_all].
Qed.
