(* ===== verification/DbConnection.v ===== *)
(** * The database connection cache ([src/backend/index.js], lines 72-139)

    [connectToDatabase] memoises the Mongoose connection in the object
    [cached = global.mongoose]: [cached.conn] holds the connection once
    established, [cached.promise] the pending [mongoose.connect] promise.
    The function is [async], so calls interleave on the event loop: each
    call runs synchronously up to an [await], and resumes later in a job of
    its own.  The model makes that interleaving explicit.

    - [cache_state]: the two fields of [cached], the calls in flight
      ([threads], one [thread] per call, indexed by call order) and two
      counters of effects on the database: how many times
      [mongoose.connect] and [dropIndex("userID_1")] were invoked.
    - [cache_event] / [exec]: one atomic job of the event loop: a call's
      synchronous prefix ([call_entry], lines 79-99), the connection
      promise settling, a call resuming after [await cached.promise]
      ([resume_conn], lines 101-105) or after [await ...dropIndex(...)]
      ([resume_drop], lines 106-111).
    - [cache_step] and [reachable]: the step relation and its reflexive
      transitive closure from the state after module load ([load_module],
      lines 73-77).

    The theorems: [mongoose.connect] runs at most once per process however
    requests interleave ([connect_at_most_once]); every call that returns
    returns the connection the promise produced ([returned_connection]);
    every pending call can finish once the promise settles
    ([calls_complete]); a rejected connection promise stays cached, so no
    later call ever succeeds and no reconnection is attempted
    ([rejection_is_permanent], a defect); and, against the comment on line
    103, the index drop runs once per concurrent call, not once per
    instance ([drop_index_twice]).

    The last section bounds the loop: [pending_jobs] counts the jobs still
    owed, every job other than a new call decreases it, so those jobs form
    a well-founded relation ([jobs_terminate]); the number of [dropIndex]
    calls never exceeds the number of calls ([drop_index_bounded]). *)

From S2P Require Import Prelude.
From Stdlib Require Import Wf_nat Inclusion.

(** A Mongoose connection handle and a connection error, by identity. *)
Definition connection := nat.
Definition db_error := string.

(** The state of the promise stored in [cached.promise]. *)
Inductive promise_state :=
| PNone                          (* cached.promise is null *)
| PPending
| PResolved (m : connection)
| PRejected (e : db_error).

(** Where a call of [connectToDatabase] is. *)
Inductive thread :=
| AwaitConn                      (* suspended at [await cached.promise] *)
| AwaitDrop                      (* suspended at [await ...dropIndex("userID_1")] *)
| Returned (r : option connection)   (* resolved with [cached.conn] *)
| Threw (e : db_error).              (* rejected with the connection error *)

Record cache_state := {
  cached_conn : option connection;
  cached_promise : promise_state;
  connect_calls : nat;
  drop_calls : nat;
  threads : list thread
}.

Definition empty_cache : cache_state :=
  {| cached_conn := None; cached_promise := PNone; connect_calls := 0;
     drop_calls := 0; threads := [] |}.

(** Lines 73-77: [let cached = global.mongoose; if (!cached) cached =
    global.mongoose = { conn: null, promise: null };].  A warm instance
    finds the object of a previous module load. *)
Definition load_module (global_mongoose : option cache_state) : cache_state :=
  match global_mongoose with
  | Some cached => cached
  | None => empty_cache
  end.

Definition set_threads (ts : list thread) (st : cache_state) : cache_state :=
  {| cached_conn := cached_conn st; cached_promise := cached_promise st;
     connect_calls := connect_calls st; drop_calls := drop_calls st; threads := ts |}.

Definition set_promise (p : promise_state) (st : cache_state) : cache_state :=
  {| cached_conn := cached_conn st; cached_promise := p;
     connect_calls := connect_calls st; drop_calls := drop_calls st; threads := threads st |}.

(** Lines 81-99 and the start of line 101: the synchronous prefix of a
    call.  With a connection cached it returns it; otherwise it starts
    [mongoose.connect] if no promise is cached, and suspends on the
    promise. *)
Definition call_entry (st : cache_state) : cache_state :=
  match cached_conn st with
  | Some c => set_threads (threads st ++ [Returned (Some c)]) st
  | None =>
      match cached_promise st with
      | PNone =>
          {| cached_conn := None; cached_promise := PPending;
             connect_calls := S (connect_calls st); drop_calls := drop_calls st;
             threads := threads st ++ [AwaitConn] |}
      | _ => set_threads (threads st ++ [AwaitConn]) st
      end
  end.

(** Lines 101-105: call [i] resumes after [await cached.promise].  On
    fulfilment it stores the connection and starts [dropIndex]; on
    rejection the [await] throws and the call rejects. *)
Definition resume_conn (i : nat) (st : cache_state) : option cache_state :=
  match threads st !! i, cached_promise st with
  | Some AwaitConn, PResolved m =>
      Some {| cached_conn := Some m; cached_promise := cached_promise st;
              connect_calls := connect_calls st; drop_calls := S (drop_calls st);
              threads := <[i := AwaitDrop]> (threads st) |}
  | Some AwaitConn, PRejected e => Some (set_threads (<[i := Threw e]> (threads st)) st)
  | _, _ => None
  end.

(** Lines 106-111: call [i] resumes after [dropIndex], whether it
    succeeded or threw (the [catch] ignores the error), and returns
    [cached.conn]. *)
Definition resume_drop (i : nat) (st : cache_state) : option cache_state :=
  match threads st !! i with
  | Some AwaitDrop => Some (set_threads (<[i := Returned (cached_conn st)]> (threads st)) st)
  | _ => None
  end.

Inductive cache_event :=
| Call
| ConnectResolves (m : connection)
| ConnectRejects (e : db_error)
| ResumeConn (i : nat)
| ResumeDrop (i : nat).

(** One job of the event loop.  [None]: the event cannot happen now. *)
Definition exec (ev : cache_event) (st : cache_state) : option cache_state :=
  match ev with
  | Call => Some (call_entry st)
  | ConnectResolves m =>
      match cached_promise st with PPending => Some (set_promise (PResolved m) st) | _ => None end
  | ConnectRejects e =>
      match cached_promise st with PPending => Some (set_promise (PRejected e) st) | _ => None end
  | ResumeConn i => resume_conn i st
  | ResumeDrop i => resume_drop i st
  end.

Fixpoint run (evs : list cache_event) (st : cache_state) : option cache_state :=
  match evs with
  | [] => Some st
  | ev :: evs' => match exec ev st with Some st' => run evs' st' | None => None end
  end.

Definition cache_step (st st' : cache_state) : Prop := exists ev, exec ev st = Some st'.

Definition reachable (st : cache_state) : Prop := rtc cache_step empty_cache st.

(** One step, and any number of steps, of the event loop. *)
Notation "st ~~> st'" := (cache_step st st') (at level 70) : brainflip_scope.
Notation "st ~~>* st'" := (rtc cache_step st st') (at level 70) : brainflip_scope.
#[local] Open Scope brainflip_scope.

(** ** The invariant of the cache *)

(** What a call in each position implies about [cached]. *)
Definition thread_ok (c : option connection) (p : promise_state) (t : thread) : Prop :=
  match t with
  | AwaitConn => p <> PNone
  | AwaitDrop => c <> None
  | Returned r => exists m, r = Some m /\ p = PResolved m
  | Threw e => p = PRejected e
  end.

Record cache_inv (st : cache_state) : Prop := {
  inv_connects : connect_calls st = match cached_promise st with PNone => 0 | _ => 1 end;
  inv_conn : forall m, cached_conn st = Some m -> cached_promise st = PResolved m;
  inv_threads : Forall (thread_ok (cached_conn st) (cached_promise st)) (threads st)
}.

Lemma empty_cache_inv : cache_inv empty_cache.
Proof. split; simpl; [done | discriminate | constructor]. Qed.

Lemma load_module_fresh_inv : cache_inv (load_module None).
Proof. exact empty_cache_inv. Qed.

Lemma thread_ok_settle c t p' :
  thread_ok c PPending t -> p' <> PNone -> thread_ok c p' t.
Proof. destruct t; simpl; try done; intros (? & _ & ?); discriminate. Qed.

Lemma thread_ok_set_conn c m p t : thread_ok c p t -> thread_ok (Some m) p t.
Proof. destruct t; simpl; done. Qed.

Lemma Forall_insert_thread (P : thread -> Prop) ts i t :
  Forall P ts -> P t -> Forall P (<[i := t]> ts).
Proof. intros. by apply Forall_insert. Qed.

#[export] Hint Resolve thread_ok_settle thread_ok_set_conn Forall_insert_thread : brainflip.

Lemma call_entry_inv st : cache_inv st -> cache_inv (call_entry st).
Proof.
  intros [Hc Hconn Hts]. unfold call_entry.
  destruct (cached_conn st) as [c|] eqn:Ec.
  - split; simpl; [done | by rewrite Ec | ]. rewrite Ec.
    apply Forall_app. split; [done|]. apply Forall_singleton. simpl.
    exists c. split; [done|]. by apply Hconn.
  - destruct (cached_promise st) eqn:Ep.
    + split; simpl; [by rewrite Hc | intros ? ?; discriminate |].
      apply Forall_app. split; [|apply Forall_singleton; discriminate].
      eapply Forall_impl; [exact Hts|]. intros [] Ht; simpl in *; try done.
      destruct Ht as (? & _ & ?); discriminate.
    + split; simpl; rewrite ?Ec, ?Ep; [done | done |].
      apply Forall_app. split; [done | apply Forall_singleton; discriminate].
    + split; simpl; rewrite ?Ec, ?Ep; [done | done |].
      apply Forall_app. split; [done | apply Forall_singleton; discriminate].
    + split; simpl; rewrite ?Ec, ?Ep; [done | done |].
      apply Forall_app. split; [done | apply Forall_singleton; discriminate].
Qed.

Lemma settle_inv st p' :
  cache_inv st -> cached_promise st = PPending -> p' <> PNone ->
  cache_inv (set_promise p' st).
Proof.
  intros [Hc Hconn Hts] Ep Hp'. split; simpl.
  - rewrite Hc, Ep. by destruct p'.
  - intros m Hm. specialize (Hconn _ Hm). congruence.
  - rewrite Ep in Hts. eapply Forall_impl; [exact Hts|]. intros t Ht. by eapply thread_ok_settle.
Qed.

Lemma resume_conn_inv i st st' :
  cache_inv st -> resume_conn i st = Some st' -> cache_inv st'.
Proof.
  intros [Hc Hconn Hts] Hex. unfold resume_conn in Hex.
  destruct (threads st !! i) as [[]|], (cached_promise st) eqn:Ep; try discriminate;
    injection Hex as <-; split; simpl; rewrite ?Ep; try done.
  - intros m' [= <-]. done.
  - apply Forall_insert_thread; [|done].
    eapply Forall_impl; [exact Hts|]. eauto with brainflip.
  - by apply Forall_insert_thread.
Qed.

Lemma resume_drop_inv i st st' :
  cache_inv st -> resume_drop i st = Some st' -> cache_inv st'.
Proof.
  intros [Hc Hconn Hts] Hex. unfold resume_drop in Hex.
  destruct (threads st !! i) as [[]|] eqn:Ei; try discriminate. injection Hex as <-.
  split; simpl; try done. apply Forall_insert_thread; [done|].
  pose proof (proj1 (Forall_lookup _ _) Hts i _ Ei) as Hdrop. simpl in Hdrop.
  destruct (cached_conn st) as [c|] eqn:Ec; [|done]. exists c. split; [done|]. by apply Hconn.
Qed.

Lemma exec_inv ev st st' : cache_inv st -> exec ev st = Some st' -> cache_inv st'.
Proof.
  intros Hi Hex. destruct ev as [| m | e | i | i]; simpl in Hex.
  - injection Hex as <-. by apply call_entry_inv.
  - destruct (cached_promise st) eqn:Ep; try discriminate. injection Hex as <-.
    by apply settle_inv.
  - destruct (cached_promise st) eqn:Ep; try discriminate. injection Hex as <-.
    by apply settle_inv.
  - by eapply resume_conn_inv.
  - by eapply resume_drop_inv.
Qed.

Lemma step_inv st st' : cache_inv st -> st ~~> st' -> cache_inv st'.
Proof. intros Hi [ev Hex]. by eapply exec_inv. Qed.

Lemma rtc_cache_inv st st' : cache_inv st -> st ~~>* st' -> cache_inv st'.
Proof. intros Hi Hr. induction Hr; eauto using step_inv. Qed.

Lemma reachable_inv st : reachable st -> cache_inv st.
Proof. intros Hr. eapply rtc_cache_inv; [apply empty_cache_inv | exact Hr]. Qed.

Lemma run_rtc evs st st' : run evs st = Some st' -> st ~~>* st'.
Proof.
  revert st. induction evs as [|ev evs IH]; simpl; intros st Hrun.
  - injection Hrun as ->. constructor.
  - destruct (exec ev st) as [s1|] eqn:Hex; [|discriminate].
    eapply rtc_l; [exists ev; exact Hex | by apply IH].
Qed.

Lemma run_reachable evs st : run evs empty_cache = Some st -> reachable st.
Proof. apply run_rtc. Qed.

Lemma reachable_rtc st st' : reachable st -> st ~~>* st' -> reachable st'.
Proof. intros. by eapply rtc_trans. Qed.

Lemma thread_of_inv st i t :
  cache_inv st -> threads st !! i = Some t -> thread_ok (cached_conn st) (cached_promise st) t.
Proof. intros [_ _ Hts] Hi. exact (proj1 (Forall_lookup _ _) Hts i t Hi). Qed.

(** A settled promise is never replaced: no job writes [cached.promise]
    once it is set, and only a pending promise settles. *)
Definition settled (p : promise_state) : bool :=
  match p with PResolved _ | PRejected _ => true | _ => false end.

Lemma exec_keeps_settled ev st st' :
  exec ev st = Some st' -> settled (cached_promise st) = true -> cached_promise st' = cached_promise st.
Proof.
  intros Hex Hs. destruct (cached_promise st) as [| |m|e] eqn:Ep; try discriminate;
  destruct ev as [| m' | e' | i | i]; simpl in Hex; rewrite ?Ep in Hex; try discriminate.
  all: try (injection Hex as <-; unfold call_entry; repeat case_match; simpl; congruence).
  all: try (unfold resume_conn in Hex; rewrite Ep in Hex;
            destruct (threads st !! i) as [[]|]; try discriminate; by injection Hex as <-).
  all: unfold resume_drop in Hex; destruct (threads st !! i) as [[]|]; try discriminate;
       by injection Hex as <-.
Qed.

Lemma rtc_keeps_settled st st' :
  st ~~>* st' -> settled (cached_promise st) = true -> cached_promise st' = cached_promise st.
Proof.
  induction 1 as [|s1 s2 s3 [ev Hex] _ IH]; [done|]. intros Hs.
  pose proof (exec_keeps_settled _ _ _ Hex Hs) as E. rewrite <- E. apply IH. by rewrite E.
Qed.

Lemma rtc_keeps_rejection st st' e :
  st ~~>* st' -> cached_promise st = PRejected e -> cached_promise st' = PRejected e.
Proof. intros Hs Ep. rewrite (rtc_keeps_settled _ _ Hs); by rewrite Ep. Qed.

Definition finished (t : thread) : bool :=
  match t with Returned _ | Threw _ => true | _ => false end.

Lemma resume_drop_finishes st i :
  threads st !! i = Some AwaitDrop ->
  exists st', st ~~> st' /\ threads st' !! i = Some (Returned (cached_conn st)).
Proof.
  intros Hi. eexists. split; [exists (ResumeDrop i); simpl; unfold resume_drop; by rewrite Hi|].
  simpl. apply list_lookup_insert_eq. by eapply lookup_lt_Some.
Qed.

(** A concurrent run: two requests call [connectToDatabase] before the
    connection is established, then both resume. *)
Definition two_requests : list cache_event :=
  [Call; Call; ConnectResolves 7; ResumeConn 0; ResumeConn 1; ResumeDrop 0; ResumeDrop 1].

Definition two_requests_state : cache_state :=
  {| cached_conn := Some 7; cached_promise := PResolved 7; connect_calls := 1;
     drop_calls := 2; threads := [Returned (Some 7); Returned (Some 7)] |}.

Lemma two_requests_reachable : reachable two_requests_state.
Proof. apply (run_reachable two_requests). vm_compute. reflexivity. Qed.

(** ** Theorems *)

(** C3: [mongoose.connect] is invoked at most once per process, however the
    calls of [connectToDatabase] interleave with the connection's
    progress. *)
Theorem connect_at_most_once st : reachable st -> connect_calls st <= 1.
Proof. intros Hr. destruct (reachable_inv _ Hr) as [Hc _ _]. rewrite Hc. case_match; lia. Qed.

Lemma connect_at_most_once_witness :
  reachable two_requests_state /\ connect_calls two_requests_state <= 1.
Proof.
  split; [exact two_requests_reachable|].
  exact (connect_at_most_once two_requests_state two_requests_reachable).
Defined.

(** C8: every call that has returned returned a connection (never [null]),
    and it is the one the cached promise was fulfilled with, so all
    callers share one connection. *)
Theorem returned_connection st i r :
  reachable st -> threads st !! i = Some (Returned r) ->
  exists m, r = Some m /\ cached_promise st = PResolved m.
Proof. intros Hr Hi. exact (thread_of_inv _ _ _ (reachable_inv _ Hr) Hi). Qed.

Lemma returned_connection_witness :
  exists m, Some 7 = Some m /\ cached_promise two_requests_state = PResolved m.
Proof. apply (returned_connection two_requests_state 1); [exact two_requests_reachable | done]. Defined.

(** C1: defect.  Once [mongoose.connect] has rejected, the rejected promise
    stays in [cached.promise]: from then on the promise stays rejected, no
    second connection attempt is ever made, and every call in flight is
    waiting on that promise or has thrown its error; none returns a
    connection.  The process cannot recover without a restart. *)
Theorem rejection_is_permanent st st' e :
  reachable st -> cached_promise st = PRejected e -> st ~~>* st' ->
  cached_promise st' = PRejected e /\ connect_calls st' = 1 /\
  Forall (fun t => t = AwaitConn \/ t = Threw e) (threads st').
Proof.
  intros Hr Ep Hsteps. pose proof (rtc_keeps_rejection _ _ _ Hsteps Ep) as Ep'.
  destruct (reachable_inv _ (reachable_rtc _ _ Hr Hsteps)) as [Hc Hconn Hts].
  rewrite Ep' in Hc, Hts. split; [done|]. split; [done|].
  eapply Forall_impl; [exact Hts|]. intros [] Ht; simpl in Ht.
  - by left.
  - destruct (cached_conn st') as [m|] eqn:Ec; [|done]. specialize (Hconn m eq_refl). congruence.
  - destruct Ht as (? & _ & ?). discriminate.
  - injection Ht as ->. by right.
Qed.

(** A run where the connection fails: the first call throws, and a request
    arriving afterwards waits on the same rejected promise. *)
Definition failed_state : cache_state :=
  {| cached_conn := None; cached_promise := PRejected "timeout"%string; connect_calls := 1;
     drop_calls := 0; threads := [Threw "timeout"%string] |}.

Definition failed_then_call : cache_state :=
  {| cached_conn := None; cached_promise := PRejected "timeout"%string; connect_calls := 1;
     drop_calls := 0; threads := [Threw "timeout"%string; AwaitConn] |}.

Lemma rejection_is_permanent_witness :
  cached_promise failed_then_call = PRejected "timeout"%string /\
  connect_calls failed_then_call = 1 /\
  Forall (fun t => t = AwaitConn \/ t = Threw "timeout"%string) (threads failed_then_call).
Proof.
  apply (rejection_is_permanent failed_state failed_then_call "timeout"%string).
  - apply (run_reachable [Call; ConnectRejects "timeout"%string; ResumeConn 0]).
    vm_compute. reflexivity.
  - reflexivity.
  - apply (run_rtc [Call]). vm_compute. reflexivity.
Defined.

Lemma resume_conn_resolved st i m :
  threads st !! i = Some AwaitConn -> cached_promise st = PResolved m ->
  exists st1, st ~~> st1 /\ threads st1 !! i = Some AwaitDrop.
Proof.
  intros Hi Ep. eexists. split.
  - exists (ResumeConn i). simpl. unfold resume_conn. rewrite Hi, Ep. reflexivity.
  - simpl. apply list_lookup_insert_eq. by eapply lookup_lt_Some.
Qed.

Lemma resume_conn_rejected st i e :
  threads st !! i = Some AwaitConn -> cached_promise st = PRejected e ->
  exists st1, st ~~> st1 /\ threads st1 !! i = Some (Threw e).
Proof.
  intros Hi Ep. eexists. split.
  - exists (ResumeConn i). simpl. unfold resume_conn. rewrite Hi, Ep. reflexivity.
  - simpl. apply list_lookup_insert_eq. by eapply lookup_lt_Some.
Qed.

(** Calls are never forgotten: the list of calls only grows. *)
Lemma exec_threads_length ev st st' :
  exec ev st = Some st' -> length (threads st) <= length (threads st').
Proof.
  intros Hex. destruct ev as [| m | e | i | i]; simpl in Hex.
  - injection Hex as <-. unfold call_entry. repeat case_match; simpl; rewrite length_app; lia.
  - case_match; simplify_eq; simpl; lia.
  - case_match; simplify_eq; simpl; lia.
  - unfold resume_conn in Hex. repeat case_match; simplify_eq; simpl; rewrite length_insert; lia.
  - unfold resume_drop in Hex. repeat case_match; simplify_eq; simpl; rewrite length_insert; lia.
Qed.

Lemma rtc_threads_length st st' : st ~~>* st' -> length (threads st) <= length (threads st').
Proof.
  induction 1 as [|s1 s2 s3 [ev Hex] _ IH]; [done|].
  pose proof (exec_threads_length _ _ _ Hex). lia.
Qed.

(** Once the connection promise is fulfilled with [m], every call returns
    [m] after at most two more jobs. *)
Lemma resolved_call_returns st i t m :
  reachable st -> cached_promise st = PResolved m -> threads st !! i = Some t ->
  exists st', st ~~>* st' /\ threads st' !! i = Some (Returned (Some m)).
Proof.
  intros Hr Ep Hi. pose proof (reachable_inv _ Hr) as Hinv.
  assert (Hret : forall st', st ~~>* st' -> forall r, threads st' !! i = Some (Returned r) -> r = Some m).
  { intros st' Hs r Hi'. destruct (thread_of_inv _ _ _ (reachable_inv _ (reachable_rtc _ _ Hr Hs)) Hi')
      as (m' & -> & Ep'). rewrite (rtc_keeps_settled _ _ Hs), Ep in Ep' by (by rewrite Ep). congruence. }
  pose proof (thread_of_inv _ _ _ Hinv Hi) as Ht. destruct t; simpl in Ht.
  - destruct (resume_conn_resolved _ _ _ Hi Ep) as (st1 & H1 & Hi1).
    destruct (resume_drop_finishes _ _ Hi1) as (st2 & H2 & Hi2).
    assert (Hs : st ~~>* st2) by (eapply rtc_l; [exact H1 | by apply rtc_once]).
    exists st2. split; [done|]. by rewrite <- (Hret _ Hs _ Hi2).
  - destruct (resume_drop_finishes _ _ Hi) as (st1 & H1 & Hi1).
    assert (Hs : st ~~>* st1) by (by apply rtc_once).
    exists st1. split; [done|]. by rewrite <- (Hret _ Hs _ Hi1).
  - exists st. split; [done|]. by rewrite <- (Hret st (rtc_refl _ _) _ Hi).
  - congruence.
Qed.

(** C9: every call of [connectToDatabase] terminates once the connection
    promise has settled: whatever point it is suspended at, a finite number
    of event-loop jobs brings it to a return or a throw. *)
Theorem calls_complete st i t :
  reachable st -> cached_promise st <> PPending -> threads st !! i = Some t ->
  exists st' v, st ~~>* st' /\ threads st' !! i = Some v /\ finished v = true.
Proof.
  intros Hr Hp Hi. pose proof (thread_of_inv _ _ _ (reachable_inv _ Hr) Hi) as Ht.
  destruct t; simpl in Ht.
  - destruct (cached_promise st) as [| | m | e] eqn:Ep; try done.
    + destruct (resume_conn_resolved _ _ _ Hi Ep) as (st1 & H1 & Hi1).
      destruct (resume_drop_finishes _ _ Hi1) as (st2 & H2 & Hi2).
      exists st2, (Returned (cached_conn st1)).
      split; [eapply rtc_l; [exact H1 | by apply rtc_once] | done].
    + destruct (resume_conn_rejected _ _ _ Hi Ep) as (st1 & H1 & Hi1).
      exists st1, (Threw e). split; [by apply rtc_once | done].
  - destruct (resume_drop_finishes _ _ Hi) as (st1 & H1 & Hi1).
    exists st1, (Returned (cached_conn st)). split; [by apply rtc_once | done].
  - exists st, (Returned r). done.
  - exists st, (Threw e). done.
Qed.

Lemma calls_complete_witness :
  exists st' v, failed_then_call ~~>* st' /\ threads st' !! 1 = Some v /\
                finished v = true.
Proof.
  apply (calls_complete failed_then_call 1 AwaitConn); [| discriminate | reflexivity].
  apply (run_reachable [Call; ConnectRejects "timeout"%string; ResumeConn 0; Call]).
  vm_compute. reflexivity.
Defined.

(** [n] requests arriving before the connection is established: all of
    them wait on the one promise. *)
Definition waiting (n : nat) : cache_state :=
  {| cached_conn := None; cached_promise := PPending; connect_calls := 1; drop_calls := 0;
     threads := replicate n AwaitConn |}.

(** The promise has fulfilled with [m] and the first [k] of the [n]
    waiting calls have resumed and started [dropIndex]. *)
Definition dropping (m : connection) (n k : nat) : cache_state :=
  {| cached_conn := if k is 0 then None else Some m; cached_promise := PResolved m;
     connect_calls := 1; drop_calls := k;
     threads := replicate k AwaitDrop ++ replicate (n - k) AwaitConn |}.

Lemma waiting_reachable n : reachable (waiting (S n)).
Proof.
  induction n as [|n IH]; [apply rtc_once; by exists Call|].
  eapply rtc_r; [exact IH|]. exists Call. cbn. unfold waiting.
  by rewrite (replicate_S_end (S n)).
Qed.

Lemma dropping_reachable m n k : k <= S n -> reachable (dropping m (S n) k).
Proof.
  induction k as [|k IH]; intros Hk.
  - eapply rtc_r; [apply (waiting_reachable n)|]. by exists (ConnectResolves m).
  - eapply rtc_r; [apply IH; lia|]. exists (ResumeConn k). simpl. unfold resume_conn. simpl.
    replace (S n - k) with (S (n - k)) by lia.
    rewrite lookup_app_r, length_replicate, Nat.sub_diag by (rewrite length_replicate; lia). simpl.
    rewrite insert_app_r_alt, length_replicate, Nat.sub_diag by (rewrite length_replicate; lia).
    unfold dropping. simpl. by rewrite cons_middle, app_assoc, <- replicate_S_end.
Qed.

(** C31: divergence from the comment "runs only once per instance" (line
    103): for every [n], [n] requests that arrive before the connection is
    established lead to a state where [mongoose.connect] has run once and
    [dropIndex] [n] times, once per call: the index is dropped once per
    concurrent first call, not once per instance. *)
Theorem drop_index_per_call (n : nat) (m : connection) :
  1 <= n ->
  exists st, reachable st /\ length (threads st) = n /\ connect_calls st = 1 /\ drop_calls st = n.
Proof.
  intros Hn. destruct n as [|n]; [lia|]. exists (dropping m (S n) (S n)).
  split; [apply dropping_reachable; lia|]. simpl.
  rewrite length_app, !length_replicate. split; [lia | done].
Qed.

(** ** Termination and bounds *)

(** The jobs a call still owes the event loop: two while it awaits the
    promise (the resumption and the one after [dropIndex]), one while it
    awaits [dropIndex], none once it has returned or thrown. *)
Definition thread_jobs (t : thread) : nat :=
  match t with AwaitConn => 2 | AwaitDrop => 1 | _ => 0 end.

(** Every job still to run: those of the calls, and the settling of a
    pending [mongoose.connect] promise. *)
Definition pending_jobs (st : cache_state) : nat :=
  (if cached_promise st is PPending then 1 else 0) + sum_list_with thread_jobs (threads st).

(** One job of the event loop other than a new request's call. *)
Definition job_step (st' st : cache_state) : Prop := exists ev, ev <> Call /\ exec ev st = Some st'.

(** The calls that got past [await cached.promise] with a connection. *)
Definition thread_dropped (t : thread) : nat :=
  match t with AwaitDrop | Returned _ => 1 | _ => 0 end.

Lemma exec_pending_jobs ev st st' :
  ev <> Call -> exec ev st = Some st' -> pending_jobs st' < pending_jobs st.
Proof.
  intros Hev Hex. unfold pending_jobs.
  destruct ev as [| m | e | i | i]; simpl in Hex; [done| | | |].
  - destruct (cached_promise st) eqn:Ep; simplify_eq. simpl. lia.
  - destruct (cached_promise st) eqn:Ep; simplify_eq. simpl. lia.
  - unfold resume_conn in Hex. destruct (threads st !! i) as [[]|] eqn:Hi; try discriminate.
    destruct (cached_promise st) as [| |m|e] eqn:Ep; simplify_eq; simpl; rewrite ?Ep.
    + pose proof (sum_list_with_insert thread_jobs _ _ _ AwaitDrop Hi). simpl in *. lia.
    + pose proof (sum_list_with_insert thread_jobs _ _ _ (Threw e) Hi). simpl in *. lia.
  - unfold resume_drop in Hex. destruct (threads st !! i) as [[]|] eqn:Hi; try discriminate.
    pose proof (sum_list_with_insert thread_jobs _ _ _ (Returned (cached_conn st)) Hi).
    simplify_eq. simpl in *. lia.
Qed.

Lemma pending_jobs_bound st : pending_jobs st <= 1 + 2 * length (threads st).
Proof.
  unfold pending_jobs. pose proof (sum_list_with_bound thread_jobs 2 (threads st)) as H.
  destruct (cached_promise st); (cut (sum_list_with thread_jobs (threads st) <= 2 * length (threads st));
    [lia | apply H; intros []; simpl; lia]).
Qed.

Lemma run_jobs_length evs st st' :
  run evs st = Some st' -> Forall (fun ev => ev <> Call) evs -> length evs <= pending_jobs st.
Proof.
  revert st. induction evs as [|ev evs IH]; intros st Hrun Hcalls; simpl in *; [lia|].
  inversion Hcalls as [|? ? Hev Hevs]; subst.
  destruct (exec ev st) as [st1|] eqn:Hex; [|done].
  pose proof (exec_pending_jobs _ _ _ Hev Hex). specialize (IH st1 Hrun Hevs). lia.
Qed.

Lemma exec_drop_bound ev st st' :
  drop_calls st <= sum_list_with thread_dropped (threads st) -> exec ev st = Some st' ->
  drop_calls st' <= sum_list_with thread_dropped (threads st').
Proof.
  intros Hb Hex. destruct ev as [| m | e | i | i]; simpl in Hex.
  - injection Hex as <-. unfold call_entry.
    repeat case_match; simpl; rewrite sum_list_with_app; simpl; lia.
  - case_match; simplify_eq; simpl. lia.
  - case_match; simplify_eq; simpl. lia.
  - unfold resume_conn in Hex. destruct (threads st !! i) as [[]|] eqn:Hi; try discriminate.
    destruct (cached_promise st) as [| |m|e]; simplify_eq; simpl.
    + pose proof (sum_list_with_insert thread_dropped _ _ _ AwaitDrop Hi). simpl in *. lia.
    + pose proof (sum_list_with_insert thread_dropped _ _ _ (Threw e) Hi). simpl in *. lia.
  - unfold resume_drop in Hex. destruct (threads st !! i) as [[]|] eqn:Hi; try discriminate.
    pose proof (sum_list_with_insert thread_dropped _ _ _ (Returned (cached_conn st)) Hi).
    simplify_eq. simpl in *. lia.
Qed.

Lemma rtc_drop_bound st st' :
  st ~~>* st' -> drop_calls st <= sum_list_with thread_dropped (threads st) ->
  drop_calls st' <= sum_list_with thread_dropped (threads st').
Proof. induction 1 as [|s1 s2 s3 [ev Hex] _ IH]; eauto using exec_drop_bound. Qed.

(** C10: the event loop cannot run forever on its own: the jobs other than new
    calls of [connectToDatabase] form a well-founded relation, each one
    using up one of the jobs still owed ([pending_jobs]). *)
Theorem jobs_terminate : well_founded job_step.
Proof.
  apply (wf_incl _ _ (ltof _ pending_jobs)); [|apply well_founded_ltof].
  intros st' st (ev & Hev & Hex). exact (exec_pending_jobs _ _ _ Hev Hex).
Qed.

(** Between two requests the loop runs at most one job per settling
    promise and two per call in flight: any run of jobs without a new call
    has at most [1 + 2 * calls] steps. *)
Theorem jobs_bounded evs st st' :
  run evs st = Some st' -> Forall (fun ev => ev <> Call) evs ->
  length evs <= 1 + 2 * length (threads st).
Proof.
  intros Hrun Hcalls. pose proof (run_jobs_length _ _ _ Hrun Hcalls). pose proof (pending_jobs_bound st). lia.
Qed.

(** C12: [dropIndex('userID_1')] runs at most once per call of
    [connectToDatabase], and only for calls that got a connection. *)
Theorem drop_index_bounded st : reachable st -> drop_calls st <= length (threads st).
Proof.
  intros Hr. pose proof (rtc_drop_bound _ _ Hr ltac:(simpl; lia)) as Hb.
  pose proof (sum_list_with_bound thread_dropped 1 (threads st) ltac:(intros []; simpl; lia)). lia.
Qed.

(** One call in flight while the connection is pending. *)
Definition one_call_pending : cache_state := call_entry empty_cache.

(** The three jobs that finish it. *)
Definition finishing_jobs : list cache_event := [ConnectResolves 7; ResumeConn 0; ResumeDrop 0].

Lemma jobs_bounded_witness :
  (run finishing_jobs one_call_pending =
     Some {| cached_conn := Some 7; cached_promise := PResolved 7; connect_calls := 1;
             drop_calls := 1; threads := [Returned (Some 7)] |} /\
   Forall (fun ev => ev <> Call) finishing_jobs) /\
  length finishing_jobs <= 1 + 2 * length (threads one_call_pending).
Proof.
  assert (Hrun : run finishing_jobs one_call_pending =
     Some {| cached_conn := Some 7; cached_promise := PResolved 7; connect_calls := 1;
             drop_calls := 1; threads := [Returned (Some 7)] |}) by (vm_compute; reflexivity).
  assert (Hc : Forall (fun ev => ev <> Call) finishing_jobs) by (repeat constructor; discriminate).
  split; [split; [exact Hrun | exact Hc]|].
  exact (jobs_bounded _ _ _ Hrun Hc).
Defined.

Lemma drop_index_bounded_witness :
  reachable two_requests_state /\ drop_calls two_requests_state <= length (threads two_requests_state).
Proof.
  split; [exact two_requests_reachable|].
  exact (drop_index_bounded two_requests_state two_requests_reachable).
Defined.

Lemma drop_index_per_call_witness :
  1 <= 3 /\
  exists st, reachable st /\ length (threads st) = 3 /\ connect_calls st = 1 /\ drop_calls st = 3.
Proof. split; [lia | apply (drop_index_per_call 3 7); lia]. Defined.
