(* ===== verification/Server.v ===== *)
(** * The Express application ([src/backend/index.js])

    [index.js] builds one Express application by registering, in this
    order: a CORS middleware (lines 17-25), the JSON and URL-encoded body
    parsers (lines 27-28), the three routers under [/api/users],
    [/api/cards] and [/api/decks] (lines 37-50, mounted only if all three
    [require] calls succeed), a [GET /] route describing the server (lines
    55-67) and a middleware that awaits [connectToDatabase()] (lines
    119-126).  Express runs the layers of a request in registration order
    until one responds; if none does, its final handler answers 404.

    - [request], [response], [json]: what the handlers see and produce.
    - [layer] and [app_layers]: the stack as registered; [run_layer] is
      what each layer does with a request; [dispatch] runs the stack and
      returns the response with the trace of the layers that ran.
    - The routers live in [routes/*.js], which is not part of the sources:
      they are arbitrary functions ([router]) that answer a request with a
      status and a body or pass it on; every theorem holds for all of
      them.  A router that sets its own headers, or that throws (Express's
      error handler would answer 500), is outside the model.
    - A router is mounted case-insensitively ([strip_prefix]), as
      Express's default [caseSensitive: false] does.
    - The body parsers answer a body they reject with [400], [413] or
      [415] ([body_status], [parser_error_status]); the error page's HTML
      is not modelled ([BEmpty]).
    - [EnsureDb] receives the outcome of its [connectToDatabase()] call
      ([db_result]); [db_result_of] reads it off the call's final state in
      [DbConnection].
    - [startup] and [listening] (lines 133-139): in development the module
      makes call 0 of the cache at load and listens when it fulfils.

    The theorems: a CORS preflight is answered before anything else; every
    response carries the CORS origin header; a request a router answers
    never passes through the database middleware, which is registered after
    the routers (a defect); a request whose JSON or URL-encoded body
    the parser rejects is answered 400, 413 or 415 by the parser, before
    any router or the database middleware; the advertised [/health] endpoint does not
    exist; [GET /] reports [process.env.PORT || 8080]; and after the
    connection promise has rejected, every request that reaches the
    database middleware gets 500 for the rest of the process; in
    development the server listens exactly when the startup connection has
    succeeded, and never after it failed. *)

From S2P Require Import Prelude JsString DbConnection.
From Stdlib Require Import Ascii.

#[local] Set Warnings "-register-all".

(** ** Requests, responses, JSON *)

(** A part of a [multipart/form-data] body ([FormData]). *)
Inductive form_part :=
| PartFile (name : string)     (* a [File] appended to the [FormData] *)
| PartText (v : jsstring).     (* any other value, converted with [String] *)

(** What a body parser of the [body-parser] package makes of a body of
    its content type: it parses it, or fails with an HTTP error that
    Express's final handler sends: a body that does not parse ([400]), a
    body over the size or parameter limit ([413]), an unsupported charset
    or content encoding ([415]). *)
Inductive body_status := BodyOk | Malformed | TooLarge | Unsupported.

Definition parser_error_status (s : body_status) : option N :=
  match s with
  | BodyOk => None
  | Malformed => Some 400%N
  | TooLarge => Some 413%N
  | Unsupported => Some 415%N
  end.

(** How the body parsers find the body. *)
Inductive req_body :=
| NoBody
| JsonBody (st : body_status)     (* Content-Type: application/json *)
| FormBody (st : body_status)     (* Content-Type: application/x-www-form-urlencoded *)
| Multipart (parts : list (string * form_part)).   (* neither parser reads it *)

#[export] Instance form_part_eq_dec : EqDecision form_part.
Proof. solve_decision. Defined.
#[export] Instance body_status_eq_dec : EqDecision body_status.
Proof. solve_decision. Defined.
#[export] Instance req_body_eq_dec : EqDecision req_body.
Proof. solve_decision. Defined.

(** The path is split at [/]: ["/api/cards/generate"] is
    [["api"; "cards"; "generate"]] and ["/"] is [[]]. *)
Record request := {
  method : string;
  path : list string;
  body : req_body
}.

Inductive json :=
| JNull
| JNum (n : Z)
| JStr (s : string)
| JArr (elems : list json)
| JObj (fields : list (string * json)).

Inductive res_body :=
| BEmpty
| BText (s : string)
| BJson (j : json).

(** What a handler sends; the headers come from the shared [res] object. *)
Record reply := { reply_status : N; reply_body : res_body }.

Record response := {
  status : N;
  headers : list (string * string);
  payload : res_body
}.

Definition router := request -> option reply.

Inductive db_result := DbConnected | DbFailed.

(** [process.env]. *)
Definition environment := gmap string string.

(** ** The layers *)

Inductive layer :=
| Cors
| JsonParser
| UrlencodedParser
| Mount (mount_path : list string) (r : router)
| RootRoute
| EnsureDb.

(** The name of a layer, for traces. *)
Inductive layer_name := LCors | LJson | LForm | LMount (prefix : list string) | LRoot | LEnsureDb.

Definition name_of (l : layer) : layer_name :=
  match l with
  | Cors => LCors | JsonParser => LJson | UrlencodedParser => LForm
  | Mount p _ => LMount p | RootRoute => LRoot | EnsureDb => LEnsureDb
  end.

Inductive layer_result :=
| Next (hs : list (string * string))
| Respond (hs : list (string * string)) (r : reply).

(** [res.header(k, v)] sets a header, replacing an earlier value. *)
Definition set_header (k v : string) (hs : list (string * string)) : list (string * string) :=
  (k, v) :: List.filter (fun kv => negb (String.eqb kv.1 k)) hs.

(** Lines 17-25. *)
Definition cors_headers (hs : list (string * string)) : list (string * string) :=
  set_header "Access-Control-Allow-Headers" "Content-Type, Authorization"
    (set_header "Access-Control-Allow-Methods" "GET, POST, PUT, DELETE, OPTIONS"
      (set_header "Access-Control-Allow-Origin" "*" hs)).

Definition PORT (env : environment) : json :=
  match env !! "PORT" with
  | Some s => if String.eqb s "" then JNum 8080 else JStr s
  | None => JNum 8080
  end.

(** Lines 56-66. *)
Definition root_json (env : environment) : json :=
  JObj [("message", JStr "Flashcard API Server");
        ("status", JStr "Server is running!");
        ("port", PORT env);
        ("endpoints", JObj [("health", JStr "/health"); ("users", JStr "/api/users");
                            ("cards", JStr "/api/cards"); ("decks", JStr "/api/decks")])].

(** Express mounts a router case-insensitively (the router's
    [caseSensitive] option is off by default): a mount path matches the
    leading segments of the request path up to ASCII case, the only case
    folding JavaScript's non-Unicode [i] flag does between ASCII letters. *)
Definition ascii_lower (c : Ascii.ascii) : Ascii.ascii :=
  let n := Ascii.nat_of_ascii c in
  if (65 <=? n) && (n <=? 90) then Ascii.ascii_of_nat (n + 32) else c.

Fixpoint lower (s : string) : string :=
  match s with
  | EmptyString => EmptyString
  | String c s' => String (ascii_lower c) (lower s')
  end.

(** The request path after the mount path, which the router sees. *)
Fixpoint strip_prefix (p l : list string) : option (list string) :=
  match p, l with
  | [], _ => Some l
  | x :: p', y :: l' => if String.eqb (lower x) (lower y) then strip_prefix p' l' else None
  | _ :: _, [] => None
  end.

Definition run_layer (env : environment) (db : db_result) (req : request)
    (hs : list (string * string)) (l : layer) : layer_result :=
  match l with
  | Cors =>
      let hs' := cors_headers hs in
      if String.eqb (method req) "OPTIONS" then Respond hs' {| reply_status := 200; reply_body := BText "OK" |}
      else Next hs'
  | JsonParser =>
      match body req with
      | JsonBody s =>
          match parser_error_status s with
          | Some code => Respond hs {| reply_status := code; reply_body := BEmpty |}
          | None => Next hs
          end
      | _ => Next hs
      end
  | UrlencodedParser =>
      match body req with
      | FormBody s =>
          match parser_error_status s with
          | Some code => Respond hs {| reply_status := code; reply_body := BEmpty |}
          | None => Next hs
          end
      | _ => Next hs
      end
  | Mount p r =>
      match strip_prefix p (path req) with
      | Some rest =>
          match r {| method := method req; path := rest; body := body req |} with
          | Some rep => Respond hs rep
          | None => Next hs
          end
      | None => Next hs
      end
  | RootRoute =>
      if (String.eqb (method req) "GET" || String.eqb (method req) "HEAD") && bool_decide (path req = [])
      then Respond hs {| reply_status := 200; reply_body := BJson (root_json env) |}
      else Next hs
  | EnsureDb =>
      match db with
      | DbConnected => Next hs
      | DbFailed =>
          Respond hs {| reply_status := 500;
                        reply_body := BJson (JObj [("error", JStr "Database connection failed")]) |}
      end
  end.

(** Lines 37-50 and the order of every [app.use] / [app.get] of the file. *)
Definition app_layers (routes_loaded : bool) (userRoutes cardRoutes deckRoutes : router)
  : list layer :=
  [Cors; JsonParser; UrlencodedParser] ++
  (if routes_loaded
   then [Mount ["api"; "users"] userRoutes; Mount ["api"; "cards"] cardRoutes;
         Mount ["api"; "decks"] deckRoutes]
   else []) ++
  [RootRoute; EnsureDb].

Fixpoint dispatch (env : environment) (db : db_result) (req : request)
    (hs : list (string * string)) (ls : list layer) : response * list layer_name :=
  match ls with
  | [] => ({| status := 404; headers := hs; payload := BEmpty |}, [])  (* Express's final handler *)
  | l :: ls' =>
      match run_layer env db req hs l with
      | Next hs' => let '(r, tr) := dispatch env db req hs' ls' in (r, name_of l :: tr)
      | Respond hs' rep =>
          ({| status := reply_status rep; headers := hs'; payload := reply_body rep |}, [name_of l])
      end
  end.

(** The result the database middleware sees, once its call has finished:
    [await connectToDatabase()] resumes normally or throws. *)
Definition db_result_of (t : thread) : option db_result :=
  match t with
  | Returned _ => Some DbConnected
  | Threw _ => Some DbFailed
  | _ => None
  end.

(** ** Startup *)

(** [process.env.NODE_ENV !== 'production'] (line 133). *)
Definition development (env : environment) : bool :=
  negb (bool_decide (env !! "NODE_ENV" = Some "production")).

(** Lines 133-139: in development the module calls [connectToDatabase()]
    once at load (call 0 of the cache); in production it does nothing. *)
Definition startup (env : environment) : cache_state :=
  if development env then call_entry empty_cache else empty_cache.

(** [.then(() => app.listen(PORT, ...))]: the server listens once call 0
    has fulfilled; a rejection skips the callback. *)
Definition listening (env : environment) (st : cache_state) : bool :=
  development env && match threads st !! 0 with Some (Returned _) => true | _ => false end.

(** ** Lemmas *)

Definition origin_header : string * string := ("Access-Control-Allow-Origin", "*").

Lemma set_header_other k v h hs : h.1 <> k -> In h hs -> In h (set_header k v hs).
Proof.
  intros Hk Hin. right. apply filter_In. split; [done|].
  apply negb_true_split. by apply String.eqb_neq.
Qed.

Lemma cors_headers_origin hs : In origin_header (cors_headers hs).
Proof.
  unfold cors_headers. apply set_header_other; [discriminate|].
  apply set_header_other; [discriminate|]. by left.
Qed.

Lemma run_layer_keeps_origin env db req hs l :
  In origin_header hs ->
  match run_layer env db req hs l with Next hs' | Respond hs' _ => In origin_header hs' end.
Proof.
  intros H. destruct l as [| | | p r | |]; simpl.
  - destruct (String.eqb (method req) "OPTIONS"); apply cors_headers_origin.
  - by destruct (body req) as [|[]|[]|].
  - by destruct (body req) as [|[]|[]|].
  - destruct (strip_prefix p (path req)); [|done]. by destruct (r _).
  - by destruct (_ && _).
  - by destruct db.
Qed.

Lemma dispatch_keeps_origin env db req hs ls :
  In origin_header hs -> In origin_header (headers (fst (dispatch env db req hs ls))).
Proof.
  revert hs. induction ls as [|l ls IH]; intros hs H; simpl; [done|].
  pose proof (run_layer_keeps_origin env db req hs l H) as Hl.
  destruct (run_layer env db req hs l) as [hs'|hs' rep]; simpl; [|done].
  destruct (dispatch env db req hs' ls) as [r tr] eqn:E. simpl.
  specialize (IH hs' Hl). by rewrite E in IH.
Qed.

Lemma name_of_ensure_db l : name_of l = LEnsureDb -> l = EnsureDb.
Proof. destruct l; simpl; congruence. Qed.

(** If a layer responds whatever the headers, the stack never gets past it. *)
Lemma dispatch_stops_at env db req hs pre l post :
  (forall hs, exists hs' rep, run_layer env db req hs l = Respond hs' rep) ->
  l <> EnsureDb -> ~ In EnsureDb pre ->
  ~ In LEnsureDb (snd (dispatch env db req hs (pre ++ l :: post))).
Proof.
  intros Hl Hne. revert hs. induction pre as [|l' pre IH]; intros hs Hpre; simpl.
  - destruct (Hl hs) as (hs' & rep & ->). simpl. intros [Heq | []].
    by apply Hne, name_of_ensure_db.
  - apply not_in_cons in Hpre as [Hl' Hpre].
    destruct (run_layer env db req hs l') as [hs'|hs' rep].
    + destruct (dispatch env db req hs' (pre ++ l :: post)) as [r tr] eqn:E.
      specialize (IH hs' Hpre). rewrite E in IH. simpl.
      intros [Heq | Hin]; [apply Hl'; symmetry; by apply name_of_ensure_db | done].
    + simpl. intros [Heq | []]. apply Hl'; symmetry; by apply name_of_ensure_db.
Qed.

(** Once the database middleware is reached with a failed connection, it
    answers. *)
Lemma dispatch_db_failed env req hs ls :
  In LEnsureDb (snd (dispatch env DbFailed req hs ls)) ->
  status (fst (dispatch env DbFailed req hs ls)) = 500%N.
Proof.
  revert hs. induction ls as [|l ls IH]; intros hs; simpl; [done|].
  destruct (run_layer env DbFailed req hs l) as [hs'|hs' rep] eqn:Hl.
  - destruct (dispatch env DbFailed req hs' ls) as [r tr] eqn:E. simpl.
    intros [Heq | Hin].
    + apply name_of_ensure_db in Heq. subst. discriminate.
    + specialize (IH hs'). rewrite E in IH. by apply IH.
  - simpl. intros [Heq | []]. apply name_of_ensure_db in Heq. subst.
    simpl in Hl. by injection Hl as <- <-.
Qed.

Lemma dispatch_cors_first env db req hs ls :
  In origin_header (headers (fst (dispatch env db req hs (Cors :: ls)))).
Proof.
  simpl. destruct (String.eqb (method req) "OPTIONS"); simpl; [apply cors_headers_origin|].
  pose proof (dispatch_keeps_origin env db req (cors_headers hs) ls (cors_headers_origin hs)) as H.
  destruct (dispatch env db req (cors_headers hs) ls). exact H.
Qed.

(** Requests and routers used by the witnesses. *)
Definition generate_request : request :=
  {| method := "POST"; path := ["api"; "cards"; "generate"];
     body := Multipart [("pdf", PartFile "notes.pdf"); ("numFlashcards", PartText (js "5"))] |}.

Definition generate_router : router :=
  fun req => if bool_decide (path req = ["generate"])
             then Some {| reply_status := 200; reply_body := BJson (JObj [("flashcards", JArr [])]) |}
             else None.

Definition no_router : router := fun _ => None.

(** ** Theorems *)

(** A CORS preflight ([OPTIONS], any path, any body) is answered 200
    with the three CORS headers by the first middleware; no parser, router
    or database code runs. *)
Theorem preflight_answered_first env db loaded u c d p b :
  dispatch env db {| method := "OPTIONS"; path := p; body := b |} [] (app_layers loaded u c d)
  = ({| status := 200; headers := cors_headers []; payload := BText "OK" |}, [LCors]).
Proof. reflexivity. Qed.

(** C29: a request whose body a parser rejects (malformed JSON or
    URL-encoded form: 400; over the limit: 413; unsupported charset or
    encoding: 415) is answered with that status by the parser, with the
    CORS headers and nothing else set: no router, no [GET /] route and no
    database code runs for it.  Only a preflight ([OPTIONS]) gets past
    this, being answered before the parsers. *)
Theorem malformed_body_rejected env db req loaded u c d s code :
  method req <> "OPTIONS" ->
  body req = JsonBody s \/ body req = FormBody s -> parser_error_status s = Some code ->
  dispatch env db req [] (app_layers loaded u c d) =
    ({| status := code; headers := cors_headers []; payload := BEmpty |},
     if bool_decide (body req = JsonBody s) then [LCors; LJson] else [LCors; LJson; LForm]).
Proof.
  intros Hm Hb Hs. apply String.eqb_neq in Hm.
  destruct Hb as [Hb | Hb]; destruct s; simplify_eq/=; by rewrite Hm, Hb.
Qed.

(** C32: every response of the application, whoever produces it, carries
    [Access-Control-Allow-Origin: *]. *)
Theorem cors_origin_on_every_response env db req loaded u c d :
  In origin_header (headers (fst (dispatch env db req [] (app_layers loaded u c d)))).
Proof. apply dispatch_cors_first. Qed.

(** C2: defect.  The middleware that awaits [connectToDatabase()] is
    registered after the routers, so a request that one of the routers
    answers never passes through it: the API handlers run without the
    application having awaited a database connection for them. *)
Theorem router_reply_skips_db env db req u c d p r rest rep :
  In (Mount p r) (app_layers true u c d) ->
  strip_prefix p (path req) = Some rest ->
  r {| method := method req; path := rest; body := body req |} = Some rep ->
  ~ In LEnsureDb (snd (dispatch env db req [] (app_layers true u c d))).
Proof.
  intros Hin Hs Hr.
  assert (Hans : forall hs, exists hs' rep', run_layer env db req hs (Mount p r) = Respond hs' rep')
    by (intros hs; simpl; rewrite Hs, Hr; eauto).
  simpl in Hin. destruct Hin as [[=] | [[=] | [[=] | [Heq | [Heq | [Heq | [[=] | [[=] | []]]]]]]]];
    injection Heq as <- <-.
  - exact (dispatch_stops_at env db req [] [Cors; JsonParser; UrlencodedParser] _ _ Hans
             ltac:(discriminate) ltac:(simpl; intuition discriminate)).
  - exact (dispatch_stops_at env db req [] [Cors; JsonParser; UrlencodedParser; Mount ["api"; "users"] u]
             _ _ Hans ltac:(discriminate) ltac:(simpl; intuition discriminate)).
  - exact (dispatch_stops_at env db req []
             [Cors; JsonParser; UrlencodedParser; Mount ["api"; "users"] u; Mount ["api"; "cards"] c]
             _ _ Hans ltac:(discriminate) ltac:(simpl; intuition discriminate)).
Qed.

Lemma router_reply_skips_db_witness :
  ~ In LEnsureDb (snd (dispatch ∅ DbConnected generate_request []
                         (app_layers true no_router generate_router no_router))).
Proof.
  apply (router_reply_skips_db ∅ DbConnected generate_request no_router generate_router no_router
           ["api"; "cards"] generate_router ["generate"]
           {| reply_status := 200; reply_body := BJson (JObj [("flashcards", JArr [])]) |}).
  - simpl. tauto.
  - reflexivity.
  - reflexivity.
Defined.

(** C33: the root route advertises a [/health] endpoint, but no layer
    serves it: [GET /health] falls through to Express's 404, or to the
    database middleware's 500 when the connection failed. *)
Theorem health_endpoint_missing env db loaded u c d :
  status (fst (dispatch env db {| method := "GET"; path := ["health"]; body := NoBody |} []
                 (app_layers loaded u c d)))
  = match db with DbConnected => 404%N | DbFailed => 500%N end.
Proof. destruct loaded, db; reflexivity. Qed.

(** [GET /] is answered by the root route with the server description,
    whose [port] is [process.env.PORT] when it is a non-empty string and
    the number 8080 otherwise; no router or database code runs. *)
Theorem root_route_reports_port env db loaded u c d :
  fst (dispatch env db {| method := "GET"; path := []; body := NoBody |} [] (app_layers loaded u c d))
  = {| status := 200; headers := cors_headers []; payload := BJson (root_json env) |} /\
  ~ In LEnsureDb (snd (dispatch env db {| method := "GET"; path := []; body := NoBody |} []
                         (app_layers loaded u c d))) /\
  (PORT env = JNum 8080 <-> env !! "PORT" = None \/ env !! "PORT" = Some "").
Proof.
  split; [destruct loaded; reflexivity|]. split; [destruct loaded; simpl; intuition discriminate|].
  unfold PORT. destruct (env !! "PORT") as [s|]; [|tauto].
  destruct (String.eqb_spec s "") as [->|Hne]; [tauto|].
  split; [discriminate | intros [? | [=]]; [discriminate | done]].
Qed.

(** C27: defect, at the level of requests.  Once the connection promise has
    rejected, every [connectToDatabase()] call of the database middleware
    that finishes, finishes by throwing, and every request that reaches the
    middleware is answered 500, for the rest of the process. *)
Theorem outage_is_permanent st st' e i t d env req loaded u c dr :
  reachable st -> cached_promise st = PRejected e -> rtc cache_step st st' ->
  threads st' !! i = Some t -> db_result_of t = Some d ->
  d = DbFailed /\
  (In LEnsureDb (snd (dispatch env d req [] (app_layers loaded u c dr))) ->
   status (fst (dispatch env d req [] (app_layers loaded u c dr))) = 500%N).
Proof.
  intros Hr Ep Hsteps Hi Hd.
  pose proof (thread_of_inv _ _ _ (reachable_inv _ (reachable_rtc _ _ Hr Hsteps)) Hi) as Ht.
  rewrite (rtc_keeps_rejection _ _ _ Hsteps Ep) in Ht.
  destruct t; simpl in Hd, Ht; try discriminate; [destruct Ht as (? & _ & ?); discriminate|].
  injection Hd as <-. split; [done|]. apply dispatch_db_failed.
Qed.

Lemma outage_is_permanent_witness :
  DbFailed = DbFailed /\
  (In LEnsureDb (snd (dispatch ∅ DbFailed {| method := "GET"; path := ["health"]; body := NoBody |} []
                        (app_layers true no_router no_router no_router))) ->
   status (fst (dispatch ∅ DbFailed {| method := "GET"; path := ["health"]; body := NoBody |} []
                  (app_layers true no_router no_router no_router))) = 500%N).
Proof.
  apply (outage_is_permanent failed_state failed_then_call "timeout"%string 0 (Threw "timeout"%string)).
  - apply (run_reachable [Call; ConnectRejects "timeout"%string; ResumeConn 0]).
    vm_compute. reflexivity.
  - reflexivity.
  - apply (run_rtc [Call]). vm_compute. reflexivity.
  - reflexivity.
  - reflexivity.
Defined.

Lemma startup_reachable env : reachable (startup env).
Proof.
  unfold startup. destruct (development env); [|apply rtc_refl].
  apply rtc_once. by exists Call.
Qed.

(** C28: in development the server starts listening only after the
    connection at startup has been established, and once it has been it
    always can: the [.then] callback runs within two jobs.  A failed
    connection at startup leaves the process running without listening. *)
Theorem dev_listens_iff_connected env st :
  development env = true -> rtc cache_step (startup env) st ->
  (listening env st = true -> exists m, cached_promise st = PResolved m) /\
  (forall m, cached_promise st = PResolved m ->
     exists st', rtc cache_step st st' /\ listening env st' = true) /\
  (forall e, cached_promise st = PRejected e -> listening env st = false).
Proof.
  intros Hdev Hs. pose proof (reachable_rtc _ _ (startup_reachable env) Hs) as Hr.
  assert (H0 : is_Some (threads st !! 0)).
  { apply lookup_lt_is_Some. pose proof (rtc_threads_length _ _ Hs) as Hl.
    unfold startup in Hl. rewrite Hdev in Hl. simpl in Hl. lia. }
  assert (Hl : listening env st = true -> exists m, cached_promise st = PResolved m).
  { unfold listening. rewrite Hdev. simpl. destruct (threads st !! 0) as [[]|] eqn:Ht; try discriminate.
    intros _. destruct (thread_of_inv _ _ _ (reachable_inv _ Hr) Ht) as (m & _ & ?). by exists m. }
  split; [done|]. split.
  - intros m Ep. destruct H0 as [t Ht].
    destruct (resolved_call_returns _ _ _ _ Hr Ep Ht) as (st' & Hs' & Ht').
    exists st'. split; [done|]. unfold listening. by rewrite Hdev, Ht'.
  - intros e Ep. destruct (listening env st) eqn:E; [|done]. destruct (Hl eq_refl) as [m Em]. congruence.
Qed.

(** In production nothing connects at startup: no [mongoose.connect]
    runs until a request reaches the database middleware, and the model's
    startup never listens (the platform serves the exported [app]). *)
Theorem production_startup_idle env :
  development env = false ->
  startup env = empty_cache /\ connect_calls (startup env) = 0 /\ listening env (startup env) = false.
Proof. intros Hdev. unfold startup, listening. by rewrite Hdev. Qed.

(** The development environment of [.env]-less local runs. *)
Lemma dev_listens_iff_connected_witness :
  (development ∅ = true /\ rtc cache_step (startup ∅) (call_entry empty_cache)) /\
  (listening ∅ (call_entry empty_cache) = true -> exists m, cached_promise (call_entry empty_cache) = PResolved m) /\
  (forall m, cached_promise (call_entry empty_cache) = PResolved m ->
     exists st', rtc cache_step (call_entry empty_cache) st' /\ listening ∅ st' = true) /\
  (forall e, cached_promise (call_entry empty_cache) = PRejected e -> listening ∅ (call_entry empty_cache) = false).
Proof.
  assert (Hd : development ∅ = true) by reflexivity.
  assert (Hs : rtc cache_step (startup ∅) (call_entry empty_cache)) by apply rtc_refl.
  split; [split; [exact Hd | exact Hs]|].
  exact (dev_listens_iff_connected ∅ (call_entry empty_cache) Hd Hs).
Defined.

Lemma production_startup_idle_witness :
  development {[ "NODE_ENV" := "production" ]} = false /\
  startup {[ "NODE_ENV" := "production" ]} = empty_cache /\
  connect_calls (startup {[ "NODE_ENV" := "production" ]}) = 0 /\
  listening {[ "NODE_ENV" := "production" ]} (startup {[ "NODE_ENV" := "production" ]}) = false.
Proof.
  assert (Hd : development {[ "NODE_ENV" := "production" ]} = false) by reflexivity.
  split; [exact Hd|]. exact (production_startup_idle _ Hd).
Defined.

Lemma malformed_body_rejected_witness :
  dispatch ∅ DbConnected {| method := "POST"; path := ["api"; "cards"]; body := JsonBody Malformed |} []
    (app_layers true generate_router generate_router generate_router) =
  ({| status := 400; headers := cors_headers []; payload := BEmpty |}, [LCors; LJson]).
Proof.
  exact (malformed_body_rejected ∅ DbConnected
           {| method := "POST"; path := ["api"; "cards"]; body := JsonBody Malformed |}
           true generate_router generate_router generate_router Malformed 400%N
           ltac:(discriminate) (or_introl eq_refl) eq_refl).
Defined.
