(* ===== verification/ItemStore.v ===== *)
(** * The item store ([hooks/useItemManager])

    [pages/DeckPage.jsx] keeps its cards in the hook [useItemManager]
    (line 203: [items], [addItem], [deleteItem], [updateItem]).  The hook's
    file is not part of the sources, so its contract is taken from the
    specification (section 4.1): an ordered collection of items with unique
    ids; [addItem] appends with a fresh id, [updateItem] merges fields into
    an existing item in place and fails with [NotFoundError] on an absent
    id, [deleteItem] removes without reordering and fails likewise.

    - [ItemStore]: the operations, as a typeclass over the store state [S],
      the item type [A] and the patch type [P].
    - [ItemStoreLaws]: the contract, relative to a merge function and a
      well-formedness predicate of the store.
    - [list_store]: an implementation (a list and a counter for fresh ids),
      and [list_store_laws]: the proof that it meets the contract, so the
      contract is satisfiable.

    The deck page is written against the typeclass; its theorems use only
    the laws. *)

From S2P Require Import Prelude.

Inductive store_error := NotFoundError.

Definition ids {A} (l : list (nat * A)) : list nat := map fst l.

Class ItemStore (S A P : Type) := {
  items : S -> list (nat * A);
  addItem : A -> S -> S * nat;
  updateItem : nat -> P -> S -> S + store_error;
  deleteItem : nat -> S -> S + store_error
}.

(** The item with id [i] merged with patch [p], the others unchanged. *)
Definition update_at {A P} (merge : A -> P -> A) (i : nat) (p : P) (e : nat * A) : nat * A :=
  if Nat.eqb e.1 i then (e.1, merge e.2 p) else e.

Definition remove_id {A} (i : nat) (l : list (nat * A)) : list (nat * A) :=
  List.filter (fun e => negb (Nat.eqb e.1 i)) l.

Class ItemStoreLaws (S A P : Type) `{ItemStore S A P}
    (merge : A -> P -> A) (store_wf : S -> Prop) := {
  ids_nodup : forall s, store_wf s -> NoDup (ids (items s));
  add_wf : forall a s, store_wf s -> store_wf (addItem a s).1;
  add_items : forall a s, store_wf s -> items (addItem a s).1 = items s ++ [((addItem a s).2, a)];
  add_fresh : forall a s, store_wf s -> (addItem a s).2 ∉ ids (items s);
  update_found : forall i p s, store_wf s -> i ∈ ids (items s) ->
    exists s', updateItem i p s = inl s' /\ store_wf s' /\
               items s' = map (update_at merge i p) (items s);
  update_missing : forall i p s, i ∉ ids (items s) -> updateItem i p s = inr NotFoundError;
  delete_found : forall i s, store_wf s -> i ∈ ids (items s) ->
    exists s', deleteItem i s = inl s' /\ store_wf s' /\ items s' = remove_id i (items s);
  delete_missing : forall i s, i ∉ ids (items s) -> deleteItem i s = inr NotFoundError
}.

(** ** A list implementation *)

Record list_store (A : Type) := { ls_items : list (nat * A); ls_next : nat }.
Arguments ls_items {A} _.
Arguments ls_next {A} _.

Section ListStore.
Context {A P : Type} (merge : A -> P -> A).

Definition ls_add (a : A) (s : list_store A) : list_store A * nat :=
  ({| ls_items := ls_items s ++ [(ls_next s, a)]; ls_next := S (ls_next s) |}, ls_next s).

Definition ls_update (i : nat) (p : P) (s : list_store A) : list_store A + store_error :=
  if existsb (Nat.eqb i) (ids (ls_items s))
  then inl {| ls_items := map (update_at merge i p) (ls_items s); ls_next := ls_next s |}
  else inr NotFoundError.

Definition ls_delete (i : nat) (s : list_store A) : list_store A + store_error :=
  if existsb (Nat.eqb i) (ids (ls_items s))
  then inl {| ls_items := remove_id i (ls_items s); ls_next := ls_next s |}
  else inr NotFoundError.

#[global] Instance list_store_ops : ItemStore (list_store A) A P := {
  items := ls_items;
  addItem := ls_add;
  updateItem := ls_update;
  deleteItem := ls_delete
}.

(** Ids are unique and below the counter. *)
Definition ls_wf (s : list_store A) : Prop :=
  NoDup (ids (ls_items s)) /\ Forall (fun i => i < ls_next s) (ids (ls_items s)).

(** [useItemManager(initialItems)]: the counter starts above every
    initial id. *)
Definition list_store_init (l : list (nat * A)) : list_store A :=
  {| ls_items := l; ls_next := S (foldr Nat.max 0 (ids l)) |}.

Lemma existsb_eqb_elem (i : nat) (l : list nat) : existsb (Nat.eqb i) l = true <-> i ∈ l.
Proof.
  rewrite existsb_exists, list_elem_of_In. split.
  - intros (j & Hj & Heq). apply Nat.eqb_eq in Heq. by subst.
  - intros Hi. exists i. split; [done | apply Nat.eqb_refl].
Qed.

Lemma existsb_eqb_not_elem (i : nat) (l : list nat) : i ∉ l -> existsb (Nat.eqb i) l = false.
Proof. intros Hi. apply not_true_false. by rewrite existsb_eqb_elem. Qed.

Lemma ids_update_at (i : nat) (p : P) (l : list (nat * A)) :
  ids (map (update_at merge i p) l) = ids l.
Proof.
  unfold ids. rewrite map_map. apply map_ext. intros [j x]. unfold update_at. simpl.
  by destruct (Nat.eqb j i).
Qed.

Lemma ids_remove_id (i : nat) (l : list (nat * A)) :
  ids (remove_id i l) = List.filter (fun j => negb (Nat.eqb j i)) (ids l).
Proof.
  induction l as [|[j x] l IH]; simpl; [done|]. destruct (Nat.eqb j i); simpl; by rewrite IH.
Qed.

Lemma filter_sublist_ids (f : nat -> bool) (l : list nat) (P' : nat -> Prop) :
  Forall P' l -> Forall P' (List.filter f l).
Proof.
  intros H. apply Forall_forall. intros x Hx. apply list_elem_of_In, filter_In in Hx as [Hx _].
  apply list_elem_of_In in Hx. by eapply Forall_forall in H.
Qed.

#[global] Instance list_store_laws : ItemStoreLaws (list_store A) A P merge ls_wf.
Proof.
  split; simpl.
  - intros s [Hnd _]. exact Hnd.
  - intros a s [Hnd Hlt]. unfold ls_wf, ids. simpl. rewrite map_app. simpl. split.
    + apply NoDup_app. split; [done|]. split; [|apply NoDup_singleton].
      intros x Hx ->%list_elem_of_singleton. eapply Forall_forall in Hlt; [|exact Hx].
      lia.
    + apply Forall_app. split; [eapply Forall_impl; [exact Hlt | simpl; lia] | constructor; [lia | done]].
  - done.
  - intros a s [_ Hlt] Hin. eapply Forall_forall in Hlt; [|exact Hin]. lia.
  - intros i p s [Hnd Hlt] Hin. unfold ls_update. rewrite (proj2 (existsb_eqb_elem _ _) Hin).
    eexists. split; [reflexivity|]. split; [|done]. unfold ls_wf. simpl. by rewrite ids_update_at.
  - intros i p s Hin. unfold ls_update. by rewrite existsb_eqb_not_elem.
  - intros i s [Hnd Hlt] Hin. unfold ls_delete. rewrite (proj2 (existsb_eqb_elem _ _) Hin).
    eexists. split; [reflexivity|]. split; [|done]. unfold ls_wf. simpl. rewrite ids_remove_id.
    split; [by apply NoDup_list_filter | by apply filter_sublist_ids].
  - intros i s Hin. unfold ls_delete. by rewrite existsb_eqb_not_elem.
Qed.

(** The initial list of [DeckPage] has one card with id 1; any initial list
    with distinct ids gives a well-formed store. *)
Lemma list_store_init_wf (l : list (nat * A)) : NoDup (ids l) -> ls_wf (list_store_init l).
Proof.
  intros Hnd. split; [done|]. simpl. apply Forall_forall. intros x Hx%list_elem_of_In.
  assert (x <= foldr Nat.max 0 (ids l)); [|lia].
  clear Hnd. induction (ids l) as [|y ys IH]; simpl in *; [done|].
  destruct Hx as [-> | Hx]; [lia | specialize (IH Hx); lia].
Qed.

End ListStore.
