(* ===== verification/DeckPage.v ===== *)
(** * The deck page ([src/frontend/src/pages/DeckPage.jsx])

    The page shows the cards of a deck and lets the user add, edit and
    delete them, generate cards from a PDF through the backend, share the
    deck and mark it as a favourite.  It is made of four components, each a
    Module (or Section) here, each with its React state as a record and a
    [step] function per user event, returning the callbacks or effects the
    handler performs:

    - [EditableCard] (lines 14-84): one card, displayed or edited in place;
      [isEditing] and the draft [editValues].
    - [PDFModal] (lines 89-146): the chosen file and the requested count.
    - [ShareModal] (lines 149-196): the recipient and the loading flag;
      its submit handler is [async], so it has a second job,
      [SubmitSettled], when the parent's promise settles.
    - the page itself (lines 201-391), in Section [Page]: the cards in the
      item store of [ItemStore] (an instance of the [ItemStore] class, so
      every theorem holds for any store meeting the contract), the
      visibility flags, the add form's values, the favourite flag and the
      state of each child.  [handlePDFSubmit] is split into the job that
      sends the request and the job that handles the response
      ([GenerateResponse]).

    A button that is not rendered, or is disabled, cannot be clicked: such
    an event has no step ([None]).  [alert] calls are effects with the
    message's data; [console.log] calls are not modelled.

    The page's lemmas and theorems assume only [ItemStoreLaws]: every
    [page_step] keeps the store well formed ([page_step_wf]); the generation
    response appends the cards in order with fresh ids
    ([generate_all_cards_added]), keeps the cards before a [null] element
    while reporting failure ([generate_partial_no_rollback]) and leaves the
    deck alone on failure ([generate_failure_keeps_cards]); adding, editing
    and deleting do what their buttons say ([add_card_appends],
    [edit_card_in_place], [delete_card_removes]); the PDF modal sends one
    request ([pdf_submit_sends]); sharing and the favourite flag are local
    only ([share_alert_only], [favorite_toggle_roundtrip]).  Two defects of
    the components: Cancel keeps the draft, which a later Save stores
    ([cancel_keeps_draft]), and the share modal locks up when its promise
    rejects ([share_stuck_after_rejection]).  The count input of the PDF
    modal shows [String(n)] when the modal opens and reads back
    [parseInt] of it
    ([count_input_roundtrip]) except from [10^21] on
    ([count_input_exponent]).  The witnesses run the page on [list_store]
    from the deck's initial card. *)

From S2P Require Import Prelude JsString ItemStore.

(** ** Cards *)

Record card := { front : jsstring; back : jsstring }.

(** An object spread into an item by [updateItem]: the fields it has. *)
Record card_patch := { patch_front : option jsstring; patch_back : option jsstring }.

(** [{...item, ...updates}]. *)
Definition merge_card (c : card) (p : card_patch) : card :=
  {| front := default (front c) (patch_front p); back := default (back c) (patch_back p) |}.

(** The object [{ front, back }] passed as a whole. *)
Definition full_patch (c : card) : card_patch :=
  {| patch_front := Some (front c); patch_back := Some (back c) |}.

Inductive field := Front | Back.

(** [{ ...values, [field]: value }]. *)
Definition set_field (f : field) (v : jsstring) (c : card) : card :=
  match f with
  | Front => {| front := v; back := back c |}
  | Back => {| front := front c; back := v |}
  end.

(** ** [EditableCard] *)

Module EditableCard.

Record state := { isEditing : bool; editValues : card }.

(** [useState(false)] and [useState({ front: card.front, back: card.back })]. *)
Definition init (c : card) : state := {| isEditing := false; editValues := c |}.

(** [handleChange] (line 18). *)
Definition handleChange (f : field) (v : jsstring) (st : state) : state :=
  {| isEditing := isEditing st; editValues := set_field f v (editValues st) |}.

Inductive event :=
| ClickEdit | ClickDelete | ClickSave | ClickCancel
| TypeText (f : field) (v : jsstring).   (* onChange of a textarea *)

(** What the component asks its parent to do. *)
Inductive callback := OnSave (values : card) | OnDelete.

Definition step (ev : event) (st : state) : option (state * list callback) :=
  if isEditing st then
    match ev with
    | ClickSave => Some ({| isEditing := false; editValues := editValues st |}, [OnSave (editValues st)])
    | ClickCancel => Some ({| isEditing := false; editValues := editValues st |}, [])
    | TypeText f v => Some (handleChange f v st, [])
    | _ => None
    end
  else
    match ev with
    | ClickEdit => Some ({| isEditing := true; editValues := editValues st |}, [])
    | ClickDelete => Some (st, [OnDelete])
    | _ => None
    end.

Fixpoint run (evs : list event) (st : state) : option (state * list callback) :=
  match evs with
  | [] => Some (st, [])
  | ev :: evs' =>
      match step ev st with
      | Some (st1, cbs1) =>
          match run evs' st1 with Some (st2, cbs2) => Some (st2, cbs1 ++ cbs2) | None => None end
      | None => None
      end
  end.

(** What the card shows (lines 21-44): the card, or the draft in two
    text areas. *)
Inductive view := ShowCard (q a : jsstring) | ShowEditor (f b : jsstring).

Definition render (c : card) (st : state) : view :=
  if isEditing st then ShowEditor (front (editValues st)) (back (editValues st))
  else ShowCard (front c) (back c).

End EditableCard.

(** ** [PDFModal] *)

Module PDFModal.

(** A [File] chosen in the file input, by name. *)
Definition file := string.

Record state := { pdfFile : option file; numFlashcards : js_number }.

Definition init : state := {| pdfFile := None; numFlashcards := Num 10 |}.

Inductive event :=
| ChooseFile (f : option file)   (* [e.target.files[0]], undefined if none *)
| TypeCount (v : jsstring)       (* the number input's text *)
| Submit
| ClickCancel.

Inductive output := SubmitPDF (f : file) (n : js_number) | Close.

(** [handleSubmit] (lines 93-101).  The [required], [min] and [max]
    attributes are checked by the browser before the submit event; the
    handler's own guard is [if (pdfFile)]. *)
Definition handleSubmit (st : state) : state * list output :=
  match pdfFile st with
  | Some f => (init, [SubmitPDF f (numFlashcards st); Close])
  | None => (st, [])
  end.

(** With [isOpen] false the component renders [null] (line 103). *)
Definition step (isOpen : bool) (ev : event) (st : state) : option (state * list output) :=
  if negb isOpen then None else
  match ev with
  | ChooseFile f => Some ({| pdfFile := f; numFlashcards := numFlashcards st |}, [])
  | TypeCount v => Some ({| pdfFile := pdfFile st; numFlashcards := parseInt v |}, [])
  | Submit => Some (handleSubmit st)
  | ClickCancel => Some (st, [Close])
  end.

(** [value={numFlashcards}] (line 128): the text React writes into the
    number input when it mounts it, that is each time the modal opens
    (the component renders [null] while closed, line 103):
    [String(numFlashcards)], which the input sanitises to the empty string
    when it is not a valid floating-point number (["NaN"]).  While the
    input stays mounted React leaves text that is numerically equal to
    the state alone, so the user's own spelling of the count stays until
    the modal is closed and reopened. *)
Definition input_value (st : state) : jsstring :=
  match numFlashcards st with Num z => number_to_string z | NaN => [] end.

End PDFModal.

(** ** [ShareModal] *)

Module ShareModal.

Record state := { recipientEmail : jsstring; isLoading : bool }.

Definition init : state := {| recipientEmail := []; isLoading := false |}.

Inductive event :=
| TypeEmail (v : jsstring)
| Submit
| ClickCancel
| SubmitSettled (fulfilled : bool).   (* [await onSubmit(recipientEmail)] resumes *)

Inductive output := ShareWith (email : jsstring) | Close.

Definition user_event (ev : event) : bool :=
  match ev with SubmitSettled _ => false | _ => true end.

(** [handleSubmit] (lines 153-162), first job: up to the [await]. *)
Definition handleSubmit (st : state) : state * list output :=
  if str_truthy (recipientEmail st)
  then ({| recipientEmail := recipientEmail st; isLoading := true |}, [ShareWith (recipientEmail st)])
  else (st, []).

(** Second job: on fulfilment the handler resets and closes; on rejection
    the exception leaves the handler and nothing after the [await] runs. *)
Definition resume (fulfilled : bool) (st : state) : state * list output :=
  if fulfilled then (init, [Close]) else (st, []).

(** The input and both buttons are [disabled={isLoading}]. *)
Definition step (isOpen : bool) (ev : event) (st : state) : option (state * list output) :=
  match ev with
  | SubmitSettled ok => if isLoading st then Some (resume ok st) else None
  | _ =>
      if negb isOpen || isLoading st then None else
      match ev with
      | TypeEmail v => Some ({| recipientEmail := v; isLoading := isLoading st |}, [])
      | Submit => Some (handleSubmit st)
      | _ => Some (st, [Close])
      end
  end.

(** The submit button's label (line 186). *)
Definition submit_label (st : state) : string := if isLoading st then "Sharing..." else "Share".

End ShareModal.

(** ** The page *)

(** An element of [data.flashcards]: [null] makes [card.question] throw. *)
Inductive flashcard_json :=
| FNull
| FCard (question answer : jsstring).

(** [await response.json()] on a response of [/api/cards/generate]:
    [flashcards] is [None] when absent or not an array (then [forEach]
    throws). *)
Record generate_body := { flashcards : option (list flashcard_json); error_msg : option string }.

Inductive fetch_outcome :=
| NetworkError                                 (* [fetch] rejects *)
| Http (ok : bool) (body : option generate_body).   (* [None]: [response.json()] rejects *)

(** The messages of the [alert] calls, by their data. *)
Inductive alert :=
| AlertGenerated (n : nat)          (* `Successfully generated ${n} flashcards!` *)
| AlertError (msg : option string)  (* `Error: ${data.error}` *)
| AlertFailed                       (* 'Failed to generate flashcards. Please try again.' *)
| AlertShared (email : jsstring).   (* `Deck shared successfully with ${recipientEmail}!` *)

Inductive page_effect :=
| Alert (a : alert)
| FetchGenerate (pdf : PDFModal.file) (numFlashcards : js_number).  (* POST /api/cards/generate *)

Inductive page_event :=
| ClickAddCard                                     (* line 329 *)
| ClickGeneratePDF                                 (* line 332 *)
| ClickShareDeck                                   (* line 339 *)
| ClickFavorite                                    (* line 346 *)
| FormChange (f : field) (v : jsstring)            (* AddItemForm onChange, line 360 *)
| FormSubmit                                       (* AddItemForm onSubmit, line 361 *)
| FormCancel                                       (* AddItemForm onCancel, line 362 *)
| PDF (ev : PDFModal.event)                        (* lines 367-371 *)
| Share (ev : ShareModal.event)                    (* lines 373-377 *)
| CardEvent (id : nat) (ev : EditableCard.event)   (* lines 379-388 *)
| GenerateResponse (r : fetch_outcome).            (* the awaits of handlePDFSubmit resume *)

Section Page.
Context {Store : Type} `{ItemStore Store card card_patch}.

Record page := {
  cards : Store;
  showForm : bool;
  formValues : card;
  showPDFModal : bool;
  showShareModal : bool;
  isFavorite : bool;
  inflight : nat;                             (* handlePDFSubmit calls awaiting the server *)
  editors : gmap nat EditableCard.state;      (* the state of each mounted EditableCard, by key *)
  pdf : PDFModal.state;
  share : ShareModal.state
}.

Definition empty_card : card := {| front := []; back := [] |}.

Definition page_init (store : Store) : page :=
  {| cards := store; showForm := false; formValues := empty_card; showPDFModal := false;
     showShareModal := false; isFavorite := false; inflight := 0; editors := ∅;
     pdf := PDFModal.init; share := ShareModal.init |}.

(** Record updates, one per setter. *)
Definition with_cards (s : Store) (st : page) : page :=
  {| cards := s; showForm := showForm st; formValues := formValues st;
     showPDFModal := showPDFModal st; showShareModal := showShareModal st;
     isFavorite := isFavorite st; inflight := inflight st; editors := editors st;
     pdf := pdf st; share := share st |}.

Definition with_form (show : bool) (v : card) (st : page) : page :=
  {| cards := cards st; showForm := show; formValues := v;
     showPDFModal := showPDFModal st; showShareModal := showShareModal st;
     isFavorite := isFavorite st; inflight := inflight st; editors := editors st;
     pdf := pdf st; share := share st |}.

Definition with_modals (showPdf showShare : bool) (st : page) : page :=
  {| cards := cards st; showForm := showForm st; formValues := formValues st;
     showPDFModal := showPdf; showShareModal := showShare;
     isFavorite := isFavorite st; inflight := inflight st; editors := editors st;
     pdf := pdf st; share := share st |}.

Definition with_favorite (b : bool) (st : page) : page :=
  {| cards := cards st; showForm := showForm st; formValues := formValues st;
     showPDFModal := showPDFModal st; showShareModal := showShareModal st;
     isFavorite := b; inflight := inflight st; editors := editors st;
     pdf := pdf st; share := share st |}.

Definition with_children (n : nat) (eds : gmap nat EditableCard.state)
    (ps : PDFModal.state) (ss : ShareModal.state) (st : page) : page :=
  {| cards := cards st; showForm := showForm st; formValues := formValues st;
     showPDFModal := showPDFModal st; showShareModal := showShareModal st;
     isFavorite := isFavorite st; inflight := n; editors := eds; pdf := ps; share := ss |}.

(** [handleAdd] (lines 213-217). *)
Definition handleAdd (st : page) : page :=
  with_form false empty_card
    (with_cards (addItem {| front := front (formValues st); back := back (formValues st) |} (cards st)).1 st).

(** [data.flashcards.forEach(card => addCard({ front: card.question, back: card.answer }))]
    (lines 235-243); [true] when an element throws, after the earlier adds. *)
Fixpoint add_flashcards (fcs : list flashcard_json) (s : Store) : Store * bool :=
  match fcs with
  | [] => (s, false)
  | FNull :: _ => (s, true)
  | FCard q a :: rest => add_flashcards rest (addItem {| front := q; back := a |} s).1
  end.

(** The second job of [handlePDFSubmit] (lines 231-257). *)
Definition handle_generate_response (r : fetch_outcome) (s : Store) : Store * alert :=
  match r with
  | NetworkError => (s, AlertFailed)
  | Http _ None => (s, AlertFailed)
  | Http true (Some d) =>
      match flashcards d with
      | None => (s, AlertFailed)
      | Some fcs =>
          let '(s', threw) := add_flashcards fcs s in
          (s', if threw then AlertFailed else AlertGenerated (length fcs))
      end
  | Http false (Some d) => (s, AlertError (error_msg d))
  end.

(** [handleShareSubmit] (lines 261-264; the backend call of lines 266-288
    is commented out). *)
Definition handleShareSubmit (recipientEmail : jsstring) : list page_effect :=
  [Alert (AlertShared recipientEmail)].

(** [handleToggleFavorite] (lines 292-294; the backend call of lines
    296-319 is commented out): local state only. *)
Definition handleToggleFavorite (st : page) : page := with_favorite (negb (isFavorite st)) st.

(** The card with key [id] among the rendered ones. *)
Definition find_card (id : nat) (st : page) : option card :=
  snd <$> List.find (fun e => Nat.eqb e.1 id) (items (cards st)).

Definition editor_of (id : nat) (c : card) (st : page) : EditableCard.state :=
  default (EditableCard.init c) (editors st !! id).

(** [onSave={(updated) => editCard(card.id, updated)}] and
    [onDelete={() => deleteCard(card.id)}]; a store error thrown in the
    handler leaves the state unchanged. *)
Definition card_callback (id : nat) (cb : EditableCard.callback) (st : page) : page :=
  match cb with
  | EditableCard.OnSave v =>
      match updateItem id (full_patch v) (cards st) with inl s => with_cards s st | inr _ => st end
  | EditableCard.OnDelete =>
      match deleteItem id (cards st) with
      | inl s => with_children (inflight st) (delete id (editors st)) (pdf st) (share st) (with_cards s st)
      | inr _ => st
      end
  end.

(** The parent's callbacks passed to [PDFModal] (lines 367-371):
    [onSubmit={handlePDFSubmit}] sends the request (its first job) and
    [onClose] hides the modal. *)
Definition pdf_output (acc : page * list page_effect) (o : PDFModal.output) : page * list page_effect :=
  let '(s, effs) := acc in
  match o with
  | PDFModal.SubmitPDF f n =>
      (with_children (S (inflight s)) (editors s) (pdf s) (share s) s, effs ++ [FetchGenerate f n])
  | PDFModal.Close => (with_modals false (showShareModal s) s, effs)
  end.

(** The parent's callbacks passed to [ShareModal] (lines 373-377). *)
Definition share_output (acc : page * list page_effect) (o : ShareModal.output) : page * list page_effect :=
  let '(s, effs) := acc in
  match o with
  | ShareModal.ShareWith e => (s, effs ++ handleShareSubmit e)
  | ShareModal.Close => (with_modals (showPDFModal s) false s, effs)
  end.

Definition page_step (ev : page_event) (st : page) : option (page * list page_effect) :=
  match ev with
  | ClickAddCard => Some (with_form true (formValues st) st, [])
  | ClickGeneratePDF => Some (with_modals true (showShareModal st) st, [])
  | ClickShareDeck => Some (with_modals (showPDFModal st) true st, [])
  | ClickFavorite => Some (handleToggleFavorite st, [])
  | FormChange f v => if showForm st then Some (with_form true (set_field f v (formValues st)) st, []) else None
  | FormSubmit => if showForm st then Some (handleAdd st, []) else None
  | FormCancel => if showForm st then Some (with_form false (formValues st) st, []) else None
  | PDF pev =>
      match PDFModal.step (showPDFModal st) pev (pdf st) with
      | Some (ps, outs) =>
          let st1 := with_children (inflight st) (editors st) ps (share st) st in
          Some (fold_left pdf_output outs (st1, []))
      | None => None
      end
  | Share sev =>
      match sev with
      | ShareModal.SubmitSettled false => None   (* handleShareSubmit never rejects *)
      | _ =>
          match ShareModal.step (showShareModal st) sev (share st) with
          | Some (ss, outs) =>
              let st1 := with_children (inflight st) (editors st) (pdf st) ss st in
              Some (fold_left share_output outs (st1, []))
          | None => None
          end
      end
  | CardEvent id cev =>
      match find_card id st with
      | Some c =>
          match EditableCard.step cev (editor_of id c st) with
          | Some (es, cbs) =>
              let st1 := with_children (inflight st) (<[id := es]> (editors st)) (pdf st) (share st) st in
              Some (fold_left (fun s cb => card_callback id cb s) cbs st1, [])
          | None => None
          end
      | None => None
      end
  | GenerateResponse r =>
      match inflight st with
      | O => None
      | S n =>
          let '(s, a) := handle_generate_response r (cards st) in
          Some (with_children n (editors st) (pdf st) (share st) (with_cards s st), [Alert a])
      end
  end.

(** A sequence of events, each handled to completion before the next. *)
Fixpoint page_run (evs : list page_event) (st : page) : option (page * list page_effect) :=
  match evs with
  | [] => Some (st, [])
  | ev :: evs' =>
      match page_step ev st with
      | Some (st1, e1) =>
          match page_run evs' st1 with Some (st2, e2) => Some (st2, e1 ++ e2) | None => None end
      | None => None
      end
  end.

End Page.

(** ** Lemmas *)

(** The cards of the elements before the first [null]. *)
Fixpoint valid_prefix (fcs : list flashcard_json) : list card :=
  match fcs with
  | [] => []
  | FNull :: _ => []
  | FCard q a :: rest => {| front := q; back := a |} :: valid_prefix rest
  end.

Definition has_null (fcs : list flashcard_json) : bool :=
  existsb (fun f => match f with FNull => true | _ => false end) fcs.

Section PageLemmas.
Context {Store : Type} `{ItemStoreLaws Store card card_patch merge_card store_wf}.

(** The [forEach] loop appends the cards before the first [null], in
    order, with fresh ids, and throws exactly when there is a [null]. *)
Lemma add_flashcards_spec fcs s :
  store_wf s ->
  store_wf (add_flashcards fcs s).1 /\ (add_flashcards fcs s).2 = has_null fcs /\
  exists new_ids, length new_ids = length (valid_prefix fcs) /\
    items (add_flashcards fcs s).1 = items s ++ zip new_ids (valid_prefix fcs).
Proof.
  revert s. induction fcs as [|[|q a] fcs IH]; intros s Hwf; simpl.
  - split; [done|]. split; [done|]. exists []. by rewrite app_nil_r.
  - split; [done|]. split; [done|]. exists []. by rewrite app_nil_r.
  - destruct (IH _ (add_wf {| front := q; back := a |} s Hwf)) as (Hwf' & Hthrew & new_ids & Hlen & Hitems).
    split; [done|]. split; [done|].
    exists ((addItem {| front := q; back := a |} s).2 :: new_ids). split; [simpl; by f_equal|].
    rewrite Hitems, add_items by done. by rewrite <- app_assoc.
Qed.

Lemma handle_generate_response_wf r s :
  store_wf s -> store_wf (handle_generate_response r s).1.
Proof.
  intros Hwf. destruct r as [|[] [d|]]; simpl; try done.
  destruct (flashcards d) as [fcs|]; [|done].
  destruct (add_flashcards_spec fcs s Hwf) as (Hwf' & _).
  destruct (add_flashcards fcs s). done.
Qed.

Lemma card_callback_wf id cb st :
  store_wf (cards st) -> store_wf (cards (card_callback id cb st)).
Proof.
  intros Hwf. destruct cb as [v|]; simpl.
  - destruct (decide (id ∈ ids (items (cards st)))) as [Hin|Hnin].
    + destruct (update_found id (full_patch v) _ Hwf Hin) as (s' & -> & Hwf' & _). done.
    + by rewrite update_missing.
  - destruct (decide (id ∈ ids (items (cards st)))) as [Hin|Hnin].
    + destruct (delete_found id _ Hwf Hin) as (s' & -> & Hwf' & _). done.
    + by rewrite delete_missing.
Qed.

Lemma fold_card_callbacks_wf id cbs st :
  store_wf (cards st) -> store_wf (cards (fold_left (fun s cb => card_callback id cb s) cbs st)).
Proof.
  revert st. induction cbs as [|cb cbs IH]; intros st Hwf; simpl; [done|].
  apply IH. by apply card_callback_wf.
Qed.

Lemma fold_pdf_output_cards outs (st st' : @page Store) effs effs' :
  fold_left pdf_output outs (st, effs) = (st', effs') -> cards st' = cards st.
Proof.
  revert st effs. induction outs as [|[] outs IH]; intros st effs; simpl; [by intros [= -> _]| |];
    intros Hf; by rewrite (IH _ _ Hf).
Qed.

Lemma fold_share_output_cards outs (st st' : @page Store) effs effs' :
  fold_left share_output outs (st, effs) = (st', effs') -> cards st' = cards st.
Proof.
  revert st effs. induction outs as [|[] outs IH]; intros st effs; simpl; [by intros [= -> _]| |];
    intros Hf; by rewrite (IH _ _ Hf).
Qed.

(** Every step of the page keeps its store well formed. *)
Lemma page_step_wf ev (st st' : @page Store) effs :
  store_wf (cards st) -> page_step ev st = Some (st', effs) -> store_wf (cards st').
Proof.
  intros Hwf Hstep. destruct ev; simpl in Hstep; repeat case_match; simplify_eq; simpl.
  all: try match goal with
    | Hf : fold_left pdf_output _ _ = _ |- _ => rewrite (fold_pdf_output_cards _ _ _ _ _ Hf)
    | Hf : fold_left share_output _ _ = _ |- _ => rewrite (fold_share_output_cards _ _ _ _ _ Hf)
    | Hr : handle_generate_response ?r _ = _ |- _ =>
        pose proof (handle_generate_response_wf r _ Hwf) as Hg; rewrite Hr in Hg; simpl in Hg
    end.
  all: first [done | by apply add_wf | by apply fold_card_callbacks_wf].
Qed.

Lemma page_run_wf evs (st st' : @page Store) effs :
  store_wf (cards st) -> page_run evs st = Some (st', effs) -> store_wf (cards st').
Proof.
  revert st effs. induction evs as [|ev evs IH]; intros st effs Hwf Hrun; simpl in Hrun.
  - by simplify_eq.
  - repeat case_match; simplify_eq. eapply IH; [eapply page_step_wf|]; eauto.
Qed.

Lemma generate_response_spec (st : @page Store) d fcs :
  store_wf (cards st) -> inflight st <> 0 -> flashcards d = Some fcs ->
  exists st', page_step (GenerateResponse (Http true (Some d))) st =
    Some (st', [Alert (if has_null fcs then AlertFailed else AlertGenerated (length fcs))]) /\
  inflight st' = pred (inflight st) /\ store_wf (cards st') /\
  exists new_ids, length new_ids = length (valid_prefix fcs) /\
    items (cards st') = items (cards st) ++ zip new_ids (valid_prefix fcs).
Proof.
  intros Hwf Hin Hd. destruct (add_flashcards_spec fcs (cards st) Hwf) as (Hwf' & Hthrew & Hitems).
  simpl. destruct (inflight st) as [|n] eqn:Hn; [done|]. simpl. rewrite Hd.
  destruct (add_flashcards fcs (cards st)) as [s' threw]. simpl in *. subst threw.
  eexists. split; [reflexivity|]. simpl. auto.
Qed.

Lemma find_card_elem id (st : @page Store) c :
  find_card id st = Some c -> id ∈ ids (items (cards st)).
Proof.
  unfold find_card. destruct (List.find _ _) as [[j x]|] eqn:Hf; [|done]. intros _.
  apply find_some in Hf as [Hin Heq]. apply Nat.eqb_eq in Heq. simpl in Heq. subst j.
  apply list_elem_of_In, in_map_iff. by exists (id, x).
Qed.

Lemma find_card_with_children id n eds ps ss (st : @page Store) :
  find_card id (with_children n eds ps ss st) = find_card id st.
Proof. done. Qed.

Lemma editor_of_insert id c n eds es ps ss (st : @page Store) :
  editor_of id c (with_children n (<[id := es]> eds) ps ss st) = es.
Proof. unfold editor_of. simpl. by rewrite lookup_insert_eq. Qed.

Lemma find_remove_id id (l : list (nat * card)) :
  List.find (fun e => Nat.eqb e.1 id) (remove_id id l) = None.
Proof.
  induction l as [|[j x] l IH]; [done|]. unfold remove_id in *. simpl.
  destruct (Nat.eqb j id) eqn:Hj; simpl; [done|]. by rewrite Hj.
Qed.

End PageLemmas.

(** ** Theorems *)

(** The card made of a question and an answer. *)
Definition qa_card (qa : jsstring * jsstring) : card := {| front := qa.1; back := qa.2 |}.
Definition qa_json (qa : jsstring * jsstring) : flashcard_json := FCard qa.1 qa.2.

Lemma valid_prefix_cards qas : valid_prefix (map qa_json qas) = map qa_card qas.
Proof. induction qas as [|[q a] qas IH]; simpl; by f_equal. Qed.

Lemma has_null_cards qas : has_null (map qa_json qas) = false.
Proof. by induction qas. Qed.

Lemma valid_prefix_null pre post : valid_prefix (map qa_json pre ++ FNull :: post) = map qa_card pre.
Proof. induction pre as [|[q a] pre IH]; simpl; by f_equal. Qed.

Lemma has_null_null pre post : has_null (map qa_json pre ++ FNull :: post) = true.
Proof. induction pre; simpl; [done|]. done. Qed.

Section PageTheorems.
Context {Store : Type} `{ItemStoreLaws Store card card_patch merge_card store_wf}.

(** C4: when the server answers a generation request with an array of
    flashcards, every card is appended to the deck in the order received,
    with ids fresh and distinct from every earlier id, and the success
    alert reports their number. *)
Theorem generate_all_cards_added (st : @page Store) d qas :
  store_wf (cards st) -> inflight st <> 0 -> flashcards d = Some (map qa_json qas) ->
  exists st', page_step (GenerateResponse (Http true (Some d))) st =
    Some (st', [Alert (AlertGenerated (length qas))]) /\
  NoDup (ids (items (cards st'))) /\
  exists new_ids, length new_ids = length qas /\
    items (cards st') = items (cards st) ++ zip new_ids (map qa_card qas).
Proof.
  intros Hwf Hin Hd. destruct (generate_response_spec st d _ Hwf Hin Hd)
    as (st' & Hstep & _ & Hwf' & new_ids & Hlen & Hitems).
  rewrite has_null_cards, length_map, valid_prefix_cards in *. rewrite length_map in Hlen.
  exists st'. split; [done|]. split; [by apply ids_nodup|]. by exists new_ids.
Qed.

(** C7: when an element of the array is [null], the cards before it stay
    in the deck (no rollback) while the user is told that generation
    failed; the cards after it are dropped. *)
Theorem generate_partial_no_rollback (st : @page Store) d pre post :
  store_wf (cards st) -> inflight st <> 0 ->
  flashcards d = Some (map qa_json pre ++ FNull :: post) ->
  exists st', page_step (GenerateResponse (Http true (Some d))) st =
    Some (st', [Alert AlertFailed]) /\
  exists new_ids, length new_ids = length pre /\
    items (cards st') = items (cards st) ++ zip new_ids (map qa_card pre).
Proof.
  intros Hwf Hin Hd. destruct (generate_response_spec st d _ Hwf Hin Hd)
    as (st' & Hstep & _ & _ & new_ids & Hlen & Hitems).
  rewrite has_null_null, valid_prefix_null in *. rewrite length_map in Hlen.
  exists st'. split; [done|]. by exists new_ids.
Qed.

(** C25: a failed request (network error, unreadable body, or a non-ok
    status) leaves the deck unchanged and alerts: the server's [error]
    field for a non-ok status, the generic failure otherwise. *)
Theorem generate_failure_keeps_cards (st : @page Store) r :
  inflight st <> 0 -> (forall d, r <> Http true (Some d)) ->
  exists st', page_step (GenerateResponse r) st =
    Some (st', [Alert (match r with Http false (Some d) => AlertError (error_msg d) | _ => AlertFailed end)]) /\
  cards st' = cards st /\ inflight st' = pred (inflight st).
Proof.
  intros Hin Hr. simpl. destruct (inflight st) as [|n]; [done|].
  destruct r as [|[] [d|]]; simpl; try (by eexists; split; [reflexivity|]).
  by destruct (Hr d).
Qed.

(** C18: submitting the add form appends its values as one new card with a
    fresh id and closes and clears the form; no field is checked, so a card
    with an empty front and back is added too. *)
Theorem add_card_appends (st : @page Store) :
  store_wf (cards st) -> showForm st = true ->
  exists st', page_step FormSubmit st = Some (st', []) /\
  showForm st' = false /\ formValues st' = empty_card /\
  exists id, (id ∉ ids (items (cards st))) /\
    items (cards st') = items (cards st) ++ [(id, formValues st)].
Proof.
  intros Hwf Hshow. simpl. rewrite Hshow. eexists. split; [reflexivity|].
  do 2 (split; [done|]). exists (addItem {| front := front (formValues st); back := back (formValues st) |} (cards st)).2.
  split; [by apply add_fresh|]. simpl. rewrite add_items by done. by destruct (formValues st).
Qed.

(** C16: editing a card (Edit, typing in one field, Save) replaces that
    card's front and back in place, by the editor's draft with the typed
    field changed; the other cards and the order are unchanged. *)
Theorem edit_card_in_place (st : @page Store) id c f v :
  store_wf (cards st) -> find_card id st = Some c ->
  EditableCard.isEditing (editor_of id c st) = false ->
  exists st', page_run [CardEvent id EditableCard.ClickEdit; CardEvent id (EditableCard.TypeText f v);
                        CardEvent id EditableCard.ClickSave] st = Some (st', []) /\
  items (cards st') =
    map (update_at merge_card id (full_patch (set_field f v (EditableCard.editValues (editor_of id c st)))))
        (items (cards st)).
Proof.
  intros Hwf Hfind Hed. pose proof (find_card_elem _ _ _ Hfind) as Hin.
  remember (editor_of id c st) as e eqn:He. destruct e as [ed vals]. simpl in Hed |- *. subst ed.
  destruct (update_found id (full_patch (set_field f v vals)) _ Hwf Hin) as (s' & Hupd & _ & Hitems).
  simpl. rewrite Hfind, <- He. simpl.
  rewrite find_card_with_children, Hfind, editor_of_insert. simpl.
  rewrite find_card_with_children, find_card_with_children, Hfind, editor_of_insert. simpl.
  rewrite Hupd. eexists. split; [reflexivity|]. done.
Qed.

(** C17: deleting a card (Delete, outside edit mode) removes it from the
    deck without reordering the others and unmounts its editor. *)
Theorem delete_card_removes (st : @page Store) id c :
  store_wf (cards st) -> find_card id st = Some c ->
  EditableCard.isEditing (editor_of id c st) = false ->
  exists st', page_step (CardEvent id EditableCard.ClickDelete) st = Some (st', []) /\
  items (cards st') = remove_id id (items (cards st)) /\
  find_card id st' = None /\ editors st' !! id = None.
Proof.
  intros Hwf Hfind Hed. pose proof (find_card_elem _ _ _ Hfind) as Hin.
  destruct (delete_found id _ Hwf Hin) as (s' & Hdel & _ & Hitems).
  remember (editor_of id c st) as e eqn:He. destruct e as [ed vals]. simpl in Hed. subst ed.
  simpl. rewrite Hfind, <- He. simpl. rewrite Hdel. eexists. split; [reflexivity|]. simpl.
  split; [done|]. split; [unfold find_card; simpl; by rewrite Hitems, find_remove_id|].
  apply lookup_delete_eq.
Qed.

(** C34: toggling the favourite flag twice gives back the page exactly; the
    toggle only flips local state and sends nothing. *)
Theorem favorite_toggle_roundtrip (st : @page Store) :
  exists st', page_step ClickFavorite st = Some (st', []) /\ isFavorite st' = negb (isFavorite st) /\
  page_step ClickFavorite st' = Some (st, []).
Proof.
  eexists. split; [reflexivity|]. split; [done|]. simpl.
  unfold handleToggleFavorite, with_favorite. simpl. rewrite negb_involutive. by destruct st.
Qed.

(** C35: submitting the share form with a recipient raises the success
    alert for that recipient and nothing else: no request is sent, the
    deck is unchanged and no record of recipients is kept, so sharing with
    the same address twice reports success twice. *)
Theorem share_alert_only (st : @page Store) :
  showShareModal st = true -> ShareModal.isLoading (share st) = false ->
  str_truthy (ShareModal.recipientEmail (share st)) = true ->
  exists st', page_step (Share ShareModal.Submit) st =
    Some (st', [Alert (AlertShared (ShareModal.recipientEmail (share st)))]) /\
  cards st' = cards st /\ ShareModal.isLoading (share st') = true.
Proof.
  intros Hopen Hload Hemail. simpl. rewrite Hopen, Hload. simpl.
  unfold ShareModal.handleSubmit. rewrite Hemail. simpl. eexists. split; [reflexivity|]. done.
Qed.

(** C26: submitting the PDF modal with a chosen file sends one generation
    request with that file and the count as typed, counts it as in flight,
    resets the modal to its initial values and closes it. *)
Theorem pdf_submit_sends (st : @page Store) f :
  showPDFModal st = true -> PDFModal.pdfFile (pdf st) = Some f ->
  exists st', page_step (PDF PDFModal.Submit) st =
    Some (st', [FetchGenerate f (PDFModal.numFlashcards (pdf st))]) /\
  inflight st' = S (inflight st) /\ showPDFModal st' = false /\ pdf st' = PDFModal.init /\
  cards st' = cards st.
Proof.
  intros Hopen Hfile. simpl. rewrite Hopen. simpl. unfold PDFModal.handleSubmit. rewrite Hfile.
  simpl. eexists. split; [reflexivity|]. done.
Qed.

End PageTheorems.

(** C6: Cancel leaves edit mode but keeps the draft: after Edit, typing
    and Cancel the card shows its saved values, and a later Edit then Save
    saves the cancelled text. *)
Theorem cancel_keeps_draft c f v :
  exists st, EditableCard.run [EditableCard.ClickEdit; EditableCard.TypeText f v;
                               EditableCard.ClickCancel] (EditableCard.init c) = Some (st, []) /\
  EditableCard.render c st = EditableCard.ShowCard (front c) (back c) /\
  EditableCard.run [EditableCard.ClickEdit; EditableCard.ClickSave] st =
    Some (EditableCard.init (set_field f v c), [EditableCard.OnSave (set_field f v c)]).
Proof. eexists. split; [reflexivity|]. split; reflexivity. Qed.

(** C24: if the parent's share promise rejects, the modal stays in its
    loading state for good: every user event (typing, Share, Cancel) is
    disabled, whether or not the modal is open. *)
Theorem share_stuck_after_rejection st st1 outs :
  ShareModal.step true ShareModal.Submit st = Some (st1, outs) -> outs <> [] ->
  ShareModal.step true (ShareModal.SubmitSettled false) st1 = Some (st1, []) /\
  forall isOpen ev, ShareModal.user_event ev = true -> ShareModal.step isOpen ev st1 = None.
Proof.
  unfold ShareModal.step, ShareModal.handleSubmit. destruct (ShareModal.isLoading st); [done|].
  simpl. destruct (str_truthy _); intros [= <- <-] Hne; [|done].
  split; [done|]. intros isOpen [] Hu; simpl; rewrite ?orb_true_r; done.
Qed.

(** ** Witnesses, on the list store and the page's initial deck *)

#[local] Instance deck_store_ops : ItemStore (list_store card) card card_patch := list_store_ops merge_card.
#[local] Instance deck_store_laws : ItemStoreLaws (list_store card) card card_patch merge_card ls_wf :=
  list_store_laws merge_card.

(** [useItemManager([{ id: 1, front: "What is React?", back: "A JavaScript library for building UIs." }])]
    (lines 203-205). *)
Definition initial_deck : list_store card :=
  list_store_init [(1, {| front := js "What is React?"; back := js "A JavaScript library for building UIs." |})].

Lemma initial_deck_wf : ls_wf initial_deck.
Proof. apply list_store_init_wf. apply NoDup_singleton. Qed.

(** The page after one PDF submission, awaiting the server. *)
Definition awaiting_page : @page (list_store card) :=
  with_children 1 ∅ PDFModal.init ShareModal.init (page_init initial_deck).

Definition two_cards : generate_body :=
  {| flashcards := Some (map qa_json [(js "Q1", js "A1"); (js "Q2", js "A2")]); error_msg := None |}.

Definition null_second : generate_body :=
  {| flashcards := Some (map qa_json [(js "Q1", js "A1")] ++ FNull :: []); error_msg := None |}.

Lemma generate_all_cards_added_witness :
  (ls_wf (cards awaiting_page) /\ inflight awaiting_page <> 0) /\
  exists st', page_step (GenerateResponse (Http true (Some two_cards))) awaiting_page =
    Some (st', [Alert (AlertGenerated 2)]) /\
  NoDup (ids (items (cards st'))) /\
  exists new_ids, length new_ids = 2 /\
    items (cards st') = items (cards awaiting_page) ++ zip new_ids (map qa_card [(js "Q1", js "A1"); (js "Q2", js "A2")]).
Proof.
  split; [split; [exact initial_deck_wf | simpl; lia]|].
  exact (generate_all_cards_added awaiting_page two_cards _ initial_deck_wf ltac:(simpl; lia) eq_refl).
Defined.

Lemma generate_partial_no_rollback_witness :
  (ls_wf (cards awaiting_page) /\ inflight awaiting_page <> 0) /\
  exists st', page_step (GenerateResponse (Http true (Some null_second))) awaiting_page =
    Some (st', [Alert AlertFailed]) /\
  exists new_ids, length new_ids = 1 /\
    items (cards st') = items (cards awaiting_page) ++ zip new_ids (map qa_card [(js "Q1", js "A1")]).
Proof.
  split; [split; [exact initial_deck_wf | simpl; lia]|].
  exact (generate_partial_no_rollback awaiting_page null_second _ [] initial_deck_wf ltac:(simpl; lia) eq_refl).
Defined.

Lemma generate_failure_keeps_cards_witness :
  (inflight awaiting_page <> 0 /\ forall d, NetworkError <> Http true (Some d)) /\
  exists st', page_step (GenerateResponse NetworkError) awaiting_page = Some (st', [Alert AlertFailed]) /\
  cards st' = cards awaiting_page /\ inflight st' = 0.
Proof.
  assert (Hr : forall d, NetworkError <> Http true (Some d)) by (intros d; discriminate).
  split; [split; [simpl; lia | exact Hr]|].
  exact (generate_failure_keeps_cards awaiting_page NetworkError ltac:(simpl; lia) Hr).
Defined.

(** Add a card, then delete the initial one. *)
Definition demo_events : list page_event :=
  [ClickAddCard; FormChange Front (js "Q"); FormSubmit; CardEvent 1 EditableCard.ClickDelete].

(** The add form opened and left blank. *)
Definition blank_form_page : @page (list_store card) :=
  with_form true empty_card (page_init initial_deck).

Lemma add_card_appends_witness :
  (ls_wf (cards blank_form_page) /\ showForm blank_form_page = true) /\
  exists st', page_step FormSubmit blank_form_page = Some (st', []) /\
  showForm st' = false /\ formValues st' = empty_card /\
  exists id, (id ∉ ids (items (cards blank_form_page))) /\
    items (cards st') = items (cards blank_form_page) ++ [(id, empty_card)].
Proof.
  split; [split; [exact initial_deck_wf | reflexivity]|].
  exact (add_card_appends blank_form_page initial_deck_wf eq_refl).
Defined.

Definition react_card : card :=
  {| front := js "What is React?"; back := js "A JavaScript library for building UIs." |}.

Lemma edit_card_in_place_witness :
  (ls_wf (cards (page_init initial_deck)) /\ find_card 1 (page_init initial_deck) = Some react_card /\
   EditableCard.isEditing (editor_of 1 react_card (page_init initial_deck)) = false) /\
  exists st', page_run [CardEvent 1 EditableCard.ClickEdit; CardEvent 1 (EditableCard.TypeText Back (js "A UI library."));
                        CardEvent 1 EditableCard.ClickSave] (page_init initial_deck) = Some (st', []) /\
  items (cards st') =
    map (update_at merge_card 1 (full_patch (set_field Back (js "A UI library.")
           (EditableCard.editValues (editor_of 1 react_card (page_init initial_deck))))))
        (items (cards (page_init initial_deck))).
Proof.
  assert (Hf : find_card 1 (page_init initial_deck) = Some react_card) by (vm_compute; reflexivity).
  split; [split; [exact initial_deck_wf | split; [exact Hf | reflexivity]]|].
  exact (edit_card_in_place (page_init initial_deck) 1 react_card Back (js "A UI library.")
           initial_deck_wf Hf eq_refl).
Defined.

Lemma delete_card_removes_witness :
  (ls_wf (cards (page_init initial_deck)) /\ find_card 1 (page_init initial_deck) = Some react_card /\
   EditableCard.isEditing (editor_of 1 react_card (page_init initial_deck)) = false) /\
  exists st', page_step (CardEvent 1 EditableCard.ClickDelete) (page_init initial_deck) = Some (st', []) /\
  items (cards st') = remove_id 1 (items (cards (page_init initial_deck))) /\
  find_card 1 st' = None /\ editors st' !! 1 = None.
Proof.
  assert (Hf : find_card 1 (page_init initial_deck) = Some react_card) by (vm_compute; reflexivity).
  split; [split; [exact initial_deck_wf | split; [exact Hf | reflexivity]]|].
  exact (delete_card_removes (page_init initial_deck) 1 react_card initial_deck_wf Hf eq_refl).
Defined.

(** The share modal open with a recipient typed in. *)
Definition share_page : @page (list_store card) :=
  with_children 0 ∅ PDFModal.init {| ShareModal.recipientEmail := js "bob@example.com"; ShareModal.isLoading := false |}
    (with_modals false true (page_init initial_deck)).

Lemma share_alert_only_witness :
  (showShareModal share_page = true /\ ShareModal.isLoading (share share_page) = false /\
   str_truthy (ShareModal.recipientEmail (share share_page)) = true) /\
  exists st', page_step (Share ShareModal.Submit) share_page =
    Some (st', [Alert (AlertShared (js "bob@example.com"))]) /\
  cards st' = cards share_page /\ ShareModal.isLoading (share st') = true.
Proof.
  split; [split; [reflexivity | split; [reflexivity | vm_compute; reflexivity]]|].
  exact (share_alert_only share_page eq_refl eq_refl eq_refl).
Defined.

(** The PDF modal open with a file chosen and five cards asked for. *)
Definition pdf_page : @page (list_store card) :=
  with_children 0 ∅ {| PDFModal.pdfFile := Some "notes.pdf"%string; PDFModal.numFlashcards := Num 5 |}
    ShareModal.init (with_modals true false (page_init initial_deck)).

Lemma pdf_submit_sends_witness :
  (showPDFModal pdf_page = true /\ PDFModal.pdfFile (pdf pdf_page) = Some "notes.pdf"%string) /\
  exists st', page_step (PDF PDFModal.Submit) pdf_page = Some (st', [FetchGenerate "notes.pdf" (Num 5)]) /\
  inflight st' = 1 /\ showPDFModal st' = false /\ pdf st' = PDFModal.init /\ cards st' = cards pdf_page.
Proof.
  split; [split; reflexivity|].
  exact (pdf_submit_sends pdf_page "notes.pdf" eq_refl eq_refl).
Defined.

Definition typed_share : ShareModal.state :=
  {| ShareModal.recipientEmail := js "bob@example.com"; ShareModal.isLoading := false |}.

Lemma share_stuck_after_rejection_witness :
  (ShareModal.step true ShareModal.Submit typed_share =
     Some ({| ShareModal.recipientEmail := js "bob@example.com"; ShareModal.isLoading := true |},
           [ShareModal.ShareWith (js "bob@example.com")])) /\
  let st1 := {| ShareModal.recipientEmail := js "bob@example.com"; ShareModal.isLoading := true |} in
  ShareModal.step true (ShareModal.SubmitSettled false) st1 = Some (st1, []) /\
  forall isOpen ev, ShareModal.user_event ev = true -> ShareModal.step isOpen ev st1 = None.
Proof.
  assert (Hs : ShareModal.step true ShareModal.Submit typed_share =
     Some ({| ShareModal.recipientEmail := js "bob@example.com"; ShareModal.isLoading := true |},
           [ShareModal.ShareWith (js "bob@example.com")])) by (vm_compute; reflexivity).
  split; [exact Hs|].
  exact (share_stuck_after_rejection typed_share _ _ Hs ltac:(discriminate)).
Defined.

(** C11: the count input reads back what it shows when the modal opens:
    submitting that text again through the input's [onChange] (with
    [parseInt]) leaves the modal's state unchanged, for [NaN] and for
    every count below [10^21]. *)
Theorem count_input_roundtrip st :
  (forall z, PDFModal.numFlashcards st = Num z -> (Z.abs_N z < 10 ^ 21)%N) ->
  PDFModal.step true (PDFModal.TypeCount (PDFModal.input_value st)) st = Some (st, []).
Proof.
  destruct st as [f [|z]]; intros Hz; unfold PDFModal.step, PDFModal.input_value; simpl; [done|].
  by rewrite parseInt_number_to_string by (by apply Hz).
Qed.

(** C30: from [10^21] on the round trip breaks: once the modal is
    reopened the input shows the count in exponent notation, and an edit
    that leaves that text as it is sets the count to its leading digit
    (with its sign). *)
Theorem count_input_exponent st z :
  PDFModal.numFlashcards st = Num z -> (10 ^ 21 <= Z.abs_N z)%N ->
  PDFModal.step true (PDFModal.TypeCount (PDFModal.input_value st)) st =
    Some ({| PDFModal.pdfFile := PDFModal.pdfFile st; PDFModal.numFlashcards := Num (exponent_reading z) |}, []) /\
  exponent_reading z <> z.
Proof.
  intros Hn Hz. unfold PDFModal.step, PDFModal.input_value. rewrite Hn. simpl.
  rewrite parseInt_number_to_string_big by done. split; [done|].
  pose proof (decimal_digits_lt (Z.abs_N z)) as Hlt. unfold exponent_reading.
  destruct (decimal_digits (Z.abs_N z)) as [|d r]; simpl; [destruct (z <? 0)%Z; lia|].
  inversion Hlt as [|? ? Hd _]; subst. destruct (Z.ltb_spec z 0); lia.
Qed.

Lemma count_input_roundtrip_witness :
  (forall z, PDFModal.numFlashcards PDFModal.init = Num z -> (Z.abs_N z < 10 ^ 21)%N) /\
  PDFModal.step true (PDFModal.TypeCount (PDFModal.input_value PDFModal.init)) PDFModal.init =
    Some (PDFModal.init, []).
Proof.
  assert (H : forall z, PDFModal.numFlashcards PDFModal.init = Num z -> (Z.abs_N z < 10 ^ 21)%N).
  { intros z [= <-]. simpl. lia. }
  split; [exact H | exact (count_input_roundtrip PDFModal.init H)].
Defined.

(** The modal holding [10^21] cards, as parsed from 22 typed digits. *)
Definition huge_count : PDFModal.state :=
  {| PDFModal.pdfFile := None; PDFModal.numFlashcards := Num (10 ^ 21) |}.

Lemma count_input_exponent_witness :
  (PDFModal.numFlashcards huge_count = Num (10 ^ 21) /\ (10 ^ 21 <= Z.abs_N (10 ^ 21))%N) /\
  PDFModal.step true (PDFModal.TypeCount (PDFModal.input_value huge_count)) huge_count =
    Some ({| PDFModal.pdfFile := None; PDFModal.numFlashcards := Num 1 |}, []) /\ (1 <> 10 ^ 21)%Z.
Proof.
  assert (H1 : PDFModal.numFlashcards huge_count = Num (10 ^ 21)) by reflexivity.
  assert (H2 : (10 ^ 21 <= Z.abs_N (10 ^ 21))%N) by (vm_compute; discriminate).
  split; [split; [exact H1 | exact H2]|].
  exact (count_input_exponent huge_count (10 ^ 21) H1 H2).
Defined.

(** C19: the [forEach] import of [handlePDFSubmit] is, for any store, a fold
    of [addItem] over the cards before the first [null], and it throws
    exactly when the array has a [null]. *)
Theorem add_flashcards_fold {Store} `{ItemStore Store card card_patch} fcs (s : Store) :
  add_flashcards fcs s = (fold_left (fun s c => (addItem c s).1) (valid_prefix fcs) s, has_null fcs).
Proof. revert s. induction fcs as [|[|q a] fcs IH]; intros s; simpl; [done|done|]. apply IH. Qed.

