(* ===== verification/DeckSpec.v ===== *)
(** * The deck page against the card service of the specification

    The specification (section 4.1) describes the cards of a deck as a
    service with three operations: [addCard] creates a card with an id
    unique among all earlier ids, [editCard] replaces a card's front and
    back as a whole, [deleteCard] removes a card without reordering the
    others; the last two fail with [NotFoundError] on an absent id.  This
    file states that service as an abstract machine on the ordered list of
    cards ([card_op], [apply_op]).

    The page is related to it event by event, as a simulation: each page
    event requests a determined list of service operations ([requested]):
    submitting the add form requests one [addCard] of the form's values;
    Save on a card requests an [editCard] of that card's id with the
    editor's draft; Delete requests a [deleteCard] of that id; a successful
    generation response requests one [addCard] per returned card before
    the first [null], in order; every other event requests nothing.  The
    theorem [page_run_refines] says that after any run the cards are
    exactly the cards before it transformed by the requested operations,
    each served by the service ([serves]): adds with some fresh id, the
    others on a present id.  The ids chosen for adds are the only freedom
    the service has. *)

From S2P Require Import Prelude JsString ItemStore DeckPage.

(** ** The abstract card service *)

Inductive card_op :=
| AddCard (id : nat) (c : card)
| EditCard (id : nat) (c : card)
| DeleteCard (id : nat).

(** One operation; [None] is the service's error ([NotFoundError], or an
    id that is not fresh). *)
Definition apply_op (l : list (nat * card)) (op : card_op) : option (list (nat * card)) :=
  match op with
  | AddCard id c => if bool_decide (id ∈ ids l) then None else Some (l ++ [(id, c)])
  | EditCard id c =>
      if bool_decide (id ∈ ids l)
      then Some (map (fun e => if Nat.eqb e.1 id then (id, c) else e) l) else None
  | DeleteCard id => if bool_decide (id ∈ ids l) then Some (remove_id id l) else None
  end.

(** What a client asks of the service: an add leaves the id to the
    service. *)
Inductive request :=
| ReqAdd (c : card)
| ReqEdit (id : nat) (c : card)
| ReqDelete (id : nat).

(** The service serves a request successfully, taking [l] to [l']. *)
Definition serve (l : list (nat * card)) (r : request) (l' : list (nat * card)) : Prop :=
  match r with
  | ReqAdd c => exists id, apply_op l (AddCard id c) = Some l'
  | ReqEdit id c => apply_op l (EditCard id c) = Some l'
  | ReqDelete id => apply_op l (DeleteCard id) = Some l'
  end.

Inductive serves : list (nat * card) -> list request -> list (nat * card) -> Prop :=
| serves_nil l : serves l [] l
| serves_cons l r rs l1 l2 : serve l r l1 -> serves l1 rs l2 -> serves l (r :: rs) l2.

(** ** The requests of the page's events *)

Section Requests.
Context {Store : Type} `{ItemStore Store card card_patch}.

Definition requested (ev : page_event) (st : @page Store) : list request :=
  match ev with
  | FormSubmit => if showForm st then [ReqAdd (formValues st)] else []
  | CardEvent id EditableCard.ClickSave =>
      match find_card id st with
      | Some c => [ReqEdit id (EditableCard.editValues (editor_of id c st))]
      | None => []
      end
  | CardEvent id EditableCard.ClickDelete => [ReqDelete id]
  | GenerateResponse (Http true (Some d)) =>
      match flashcards d with Some fcs => ReqAdd <$> valid_prefix fcs | None => [] end
  | _ => []
  end.

(** The requests of a run, each event's in the state it meets. *)
Fixpoint run_requests (evs : list page_event) (st : @page Store) : list request :=
  match evs with
  | [] => []
  | ev :: evs' =>
      requested ev st ++
      match page_step ev st with Some (st1, _) => run_requests evs' st1 | None => [] end
  end.

End Requests.

(** ** Lemmas *)

Lemma serves_app l rs1 rs2 l1 l2 :
  serves l rs1 l1 -> serves l1 rs2 l2 -> serves l (rs1 ++ rs2) l2.
Proof. induction 1; simpl; [done|]. intros H2. econstructor; eauto. Qed.

Lemma serves_one l r l' : serve l r l' -> serves l [r] l'.
Proof. intros H. econstructor; [exact H | constructor]. Qed.

#[local] Hint Resolve serves_one serves_nil : brainflip.

(** Appending cards whose ids are fresh, in order, serves one add per card. *)
Lemma serves_adds l new :
  NoDup (ids (l ++ new)) -> serves l (ReqAdd <$> (snd <$> new)) (l ++ new).
Proof.
  revert l. induction new as [|[id c] new IH]; intros l Hnd; simpl.
  - rewrite app_nil_r. constructor.
  - assert (Hfresh : id ∉ ids l).
    { unfold ids in Hnd. rewrite map_app in Hnd. apply NoDup_app in Hnd as (_ & Hdis & _).
      intros Hin. by apply (Hdis id Hin); left. }
    econstructor; [exists id; simpl; by rewrite bool_decide_eq_false_2|].
    replace (l ++ (id, c) :: new) with ((l ++ [(id, c)]) ++ new) by (by rewrite <- app_assoc).
    apply IH. by rewrite <- app_assoc.
Qed.

Lemma merge_full_patch c v : merge_card c (full_patch v) = v.
Proof. by destruct v. Qed.

Lemma update_at_full_patch id v (l : list (nat * card)) :
  map (update_at merge_card id (full_patch v)) l =
  map (fun e => if Nat.eqb e.1 id then (id, v) else e) l.
Proof.
  apply map_ext. intros [j x]. unfold update_at. simpl.
  destruct (Nat.eqb_spec j id); subst; by rewrite ?merge_full_patch.
Qed.

Lemma snd_zip {A B} (xs : list A) (ys : list B) : length xs = length ys -> snd <$> zip xs ys = ys.
Proof. revert ys. induction xs; intros [] ?; simpl in *; try lia; [done|]. f_equal. auto. Qed.

Section Simulation.
Context {Store : Type} `{ItemStoreLaws Store card card_patch merge_card store_wf}.

(** A card's event serves the edit or delete its callbacks request. *)
Lemma card_event_serves id cev c es cbs (st : @page Store) :
  store_wf (cards st) -> find_card id st = Some c ->
  EditableCard.step cev (editor_of id c st) = Some (es, cbs) ->
  serves (items (cards st)) (requested (CardEvent id cev) st)
    (items (cards (fold_left (fun s cb => card_callback id cb s) cbs
                     (with_children (inflight st) (<[id := es]> (editors st)) (pdf st) (share st) st)))).
Proof.
  intros Hwf Hfind Hstep. pose proof (find_card_elem _ _ _ Hfind) as Hin.
  unfold requested. rewrite Hfind.
  destruct (editor_of id c st) as [[] vals] eqn:He; destruct cev; unfold EditableCard.step in Hstep; simpl in Hstep; simplify_eq;
    simpl; rewrite ?He; simpl; try constructor.
  - destruct (update_found id (full_patch vals) _ Hwf Hin) as (s' & -> & _ & Hitems).
    apply serves_one. simpl. rewrite bool_decide_eq_true_2 by done.
    by rewrite Hitems, update_at_full_patch.
  - destruct (delete_found id _ Hwf Hin) as (s' & -> & _ & Hitems).
    apply serves_one. simpl. rewrite bool_decide_eq_true_2 by done. by rewrite Hitems.
Qed.

(** A response of the generation request serves one add per card before
    the first [null]. *)
Lemma generate_response_serves r s (st : @page Store) :
  store_wf s -> serves (items s) (requested (GenerateResponse r) st) (items (handle_generate_response r s).1).
Proof.
  intros Hwf. pose proof (handle_generate_response_wf r s Hwf) as Hwf'.
  destruct r as [|[] [d|]]; simpl in *; try constructor.
  destruct (flashcards d) as [fcs|]; simpl in *; [|constructor].
  destruct (add_flashcards_spec fcs s Hwf) as (_ & _ & new_ids & Hlen & Hitems).
  destruct (add_flashcards fcs s) as [s' threw]. simpl in *.
  rewrite Hitems. set (cs := valid_prefix fcs) in *.
  rewrite <- (snd_zip new_ids cs Hlen) at 1. apply serves_adds.
  rewrite <- Hitems. by apply ids_nodup.
Qed.

(** The simulation diagram: one page step changes the cards by exactly the
    service operations its event requests. *)
Lemma page_step_serves ev (st st' : @page Store) effs :
  store_wf (cards st) -> page_step ev st = Some (st', effs) ->
  serves (items (cards st)) (requested ev st) (items (cards st')).
Proof.
  intros Hwf Hstep. destruct ev as [| | | | f v | | | pev | sev | id cev | r]; simpl in Hstep.
  - simplify_eq. constructor.
  - simplify_eq. constructor.
  - simplify_eq. constructor.
  - simplify_eq. constructor.
  - case_match; simplify_eq. constructor.
  - simpl. destruct (showForm st); simplify_eq. simpl. rewrite add_items by done.
    apply serves_one. exists (addItem {| front := front (formValues st); back := back (formValues st) |} (cards st)).2.
    simpl. rewrite bool_decide_eq_false_2 by (by apply add_fresh). by destruct (formValues st).
  - case_match; simplify_eq. constructor.
  - repeat case_match; simplify_eq. rewrite (fold_pdf_output_cards _ _ _ _ _ Hstep). constructor.
  - repeat case_match; simplify_eq; rewrite (fold_share_output_cards _ _ _ _ _ Hstep); constructor.
  - destruct (find_card id st) as [c|] eqn:Hfind; [|done].
    destruct (EditableCard.step cev (editor_of id c st)) as [[es cbs]|] eqn:Hes; [|done].
    simplify_eq. by apply (card_event_serves _ _ c es).
  - destruct (inflight st) as [|n]; [done|].
    pose proof (generate_response_serves r (cards st) st Hwf) as Hg.
    destruct (handle_generate_response r (cards st)) as [s a]. by simplify_eq.
Qed.

End Simulation.

(** ** Theorems *)

Section Refinement.
Context {Store : Type} `{ItemStoreLaws Store card card_patch merge_card store_wf}.

(** C13: the deck page refines the card service of the specification,
    event by event: after any run, the cards are exactly the cards before
    it transformed by the operations the events requested, in order, each
    served by the service: one [addCard] of the form's values per add-form
    submit, one [editCard] of the card's id with the editor's draft per
    Save, one [deleteCard] of the card's id per Delete, one [addCard] per
    generated card before the first [null]; no other event changes the
    cards. *)
Theorem page_run_refines evs (st st' : @page Store) effs :
  store_wf (cards st) -> page_run evs st = Some (st', effs) ->
  serves (items (cards st)) (run_requests evs st) (items (cards st')).
Proof.
  revert st effs. induction evs as [|ev evs IH]; intros st effs Hwf Hrun; simpl in Hrun |- *.
  - simplify_eq. constructor.
  - destruct (page_step ev st) as [[st1 e1]|] eqn:Hstep; [|done].
    destruct (page_run evs st1) as [[st2 e2]|] eqn:Hrest; simplify_eq.
    eapply serves_app; [by eapply page_step_serves|].
    eapply IH; [eapply page_step_wf|]; eauto.
Qed.

End Refinement.

(** ** Witnesses *)

#[local] Instance deck_spec_ops : ItemStore (list_store card) card card_patch := list_store_ops merge_card.
#[local] Instance deck_spec_laws : ItemStoreLaws (list_store card) card card_patch merge_card ls_wf :=
  list_store_laws merge_card.

Lemma page_run_refines_witness :
  ls_wf (cards (page_init initial_deck)) /\
  exists st' effs, page_run demo_events (page_init initial_deck) = Some (st', effs) /\
    serves (items (cards (page_init initial_deck))) (run_requests demo_events (page_init initial_deck))
      (items (cards st')).
Proof.
  split; [exact initial_deck_wf|].
  destruct (page_run demo_events (page_init initial_deck)) as [[st' effs]|] eqn:Hrun;
    [|vm_compute in Hrun; discriminate].
  exists st', effs. split; [reflexivity|].
  exact (page_run_refines demo_events (page_init initial_deck) st' effs initial_deck_wf Hrun).
Defined.
