(* ===== verification/EndToEnd.v ===== *)
(** * The deck page and the server together: generating cards from a PDF

    [handlePDFSubmit] ([pages/DeckPage.jsx], lines 220-258) sends the
    chosen file and the count as [FormData] to
    [http://localhost:5000/api/cards/generate]; the server of
    [backend/index.js] answers through its layer stack; the page reads
    [response.ok] and [response.json()].  This file composes the two
    models: [generate_request_of] is the request the server sees,
    [fetch_generate] is the browser's [fetch] (the port, the CORS check
    of a cross-origin response, [response.ok] and the JSON decoding), and
    its result is the [GenerateResponse] event of the page.

    The decoding covers the JSON shapes the page's model represents: a
    card element is [null] or an object with string [question] and
    [answer]; [None] marks a body outside those shapes.  A [PORT] is
    compared as the string ["5000"]; other spellings of that port are not
    modelled.

    With the server on any other port, in particular its default 8080,
    [fetch] rejects and the page shows the generic failure
    ([generate_response_unchanged]).  The theorems: a
    request no router answers ends in that alert, or in the server's
    database error when the connection is down
    ([unrouted_generation_fails]); and when the cards router answers with
    an array of cards, they end up in the deck ([generation_end_to_end]). *)

From S2P Require Import Prelude JsString ItemStore Server DeckPage.

(** ** The request *)

(** [formData.append('numFlashcards', numFlashcards)] converts the number
    with [String]. *)
Definition js_number_to_string (n : js_number) : jsstring :=
  match n with NaN => js "NaN" | Num z => number_to_string z end.

(** Lines 221-229: [POST] with the [FormData] body. *)
Definition generate_request_of (f : PDFModal.file) (n : js_number) : request :=
  {| method := "POST"; path := ["api"; "cards"; "generate"];
     body := Multipart [("pdf", PartFile f); ("numFlashcards", PartText (js_number_to_string n))] |}.

(** The page posts to port 5000 (line 226); the server listens on [PORT]
    (line 135). *)
Definition listens_on_5000 (env : environment) : bool :=
  match PORT env with JStr s => String.eqb s "5000" | JNum n => Z.eqb n 5000 | _ => false end.

(** ** The response, as the page reads it *)

(** [data.k] on a parsed object: the last field named [k] wins, as in
    [JSON.parse]. *)
Definition lookup_field (k : string) (fs : list (string * json)) : option json :=
  snd <$> List.find (fun kv => String.eqb kv.1 k) (rev fs).

(** An element of [data.flashcards]. *)
Definition decode_flashcard (j : json) : option flashcard_json :=
  match j with
  | JNull => Some FNull
  | JObj fs =>
      match lookup_field "question" fs, lookup_field "answer" fs with
      | Some (JStr q), Some (JStr a) => Some (FCard (js q) (js a))
      | _, _ => None
      end
  | _ => None
  end.

Fixpoint decode_flashcards (l : list json) : option (list flashcard_json) :=
  match l with
  | [] => Some []
  | j :: r =>
      match decode_flashcard j, decode_flashcards r with
      | Some f, Some fs => Some (f :: fs)
      | _, _ => None
      end
  end.

(** [await response.json()]: [Some None] when it rejects (a body that is
    not JSON), or when the page's first property access throws ([null]);
    [None] outside the modelled shapes. *)
Definition decode_body (b : res_body) : option (option generate_body) :=
  match b with
  | BEmpty | BText _ | BJson JNull => Some None
  | BJson (JObj fs) =>
      let fl := match lookup_field "flashcards" fs with
                | Some (JArr l) => option_map Some (decode_flashcards l)
                | _ => Some None          (* absent or not an array: [forEach] throws *)
                end in
      let err := match lookup_field "error" fs with
                 | Some (JStr s) => Some (Some s)
                 | None => Some None
                 | Some _ => None
                 end in
      match fl, err with
      | Some fl', Some err' => Some (Some {| flashcards := fl'; error_msg := err' |})
      | _, _ => None
      end
  | BJson _ => Some (Some {| flashcards := None; error_msg := None |})
  end.

(** The browser's [fetch]: no server on port 5000, or a cross-origin
    response without [Access-Control-Allow-Origin], is a network error;
    otherwise [response.ok] is a 2xx status. *)
Definition fetch_generate (env : environment) (db : db_result) (routes_loaded : bool)
    (u c d : router) (f : PDFModal.file) (n : js_number) : option fetch_outcome :=
  if listens_on_5000 env then
    let r := fst (dispatch env db (generate_request_of f n) [] (app_layers routes_loaded u c d)) in
    if bool_decide (origin_header ∈ headers r) then
      match decode_body (payload r) with
      | Some b => Some (Http ((200 <=? status r) && (status r <=? 299))%N b)
      | None => None
      end
    else Some NetworkError
  else Some NetworkError.

(** The request as the cards router sees it, under its mount path. *)
Definition routed_request (f : PDFModal.file) (n : js_number) : request :=
  {| method := "POST"; path := ["generate"]; body := body (generate_request_of f n) |}.

(** The JSON a cards router sends for question/answer pairs. *)
Definition qa_object (qa : string * string) : json :=
  JObj [("question", JStr qa.1); ("answer", JStr qa.2)].

Definition qa_js (qa : string * string) : jsstring * jsstring := (js qa.1, js qa.2).

(** ** Lemmas *)

Lemma decode_qa_objects qas :
  decode_flashcards (map qa_object qas) = Some (map qa_json (map qa_js qas)).
Proof. induction qas as [|[q a] qas IH]; simpl; [done|]. by rewrite IH. Qed.

Lemma fetch_origin env db loaded u c d f n :
  origin_header ∈ headers (fst (dispatch env db (generate_request_of f n) [] (app_layers loaded u c d))).
Proof. apply list_elem_of_In, dispatch_cors_first. Qed.

(** [GenerateResponse] for a failed request: the deck is unchanged. *)
Lemma generate_response_unchanged {Store} `{ItemStore Store card card_patch} (st : @page Store) o a :
  inflight st <> 0 -> snd (handle_generate_response o (cards st)) = a ->
  fst (handle_generate_response o (cards st)) = cards st ->
  exists st', page_step (GenerateResponse o) st = Some (st', [Alert a]) /\ cards st' = cards st.
Proof.
  intros Hin Ha Hs. simpl. destruct (inflight st) as [|k]; [done|].
  destruct (handle_generate_response o (cards st)) as [s a'] eqn:E. simpl in *. subst.
  eexists. split; reflexivity.
Qed.

(** ** Theorems *)

Section Generation.
Context {Store : Type} `{ItemStore Store card card_patch}.

(** C15: when no router answers the request (the routes failed to load, or
    the cards router does not handle it), the request falls through to
    the database middleware: with the connection down the user sees the
    server's ["Database connection failed"], otherwise Express's 404 page,
    which is not JSON, gives the generic failure.  The deck is unchanged. *)
Theorem unrouted_generation_fails env db loaded u c d f n (st : @page Store) :
  listens_on_5000 env = true -> inflight st <> 0 ->
  (loaded = false \/ c (routed_request f n) = None) ->
  fetch_generate env db loaded u c d f n =
    Some (Http false (if db is DbFailed
                      then Some {| flashcards := None; error_msg := Some "Database connection failed" |}
                      else None)) /\
  exists st', page_step (GenerateResponse (Http false (if db is DbFailed
                      then Some {| flashcards := None; error_msg := Some "Database connection failed" |}
                      else None))) st =
    Some (st', [Alert (if db is DbFailed then AlertError (Some "Database connection failed") else AlertFailed)]) /\
    cards st' = cards st.
Proof.
  intros Hp Hin Hroute. split.
  - unfold fetch_generate. rewrite Hp. cbv zeta.
    rewrite bool_decide_eq_true_2 by apply fetch_origin.
    unfold routed_request in Hroute.
    destruct Hroute as [-> | Hc]; [|destruct loaded]; simpl in *; rewrite ?Hc; by destruct db.
  - apply generate_response_unchanged; [done | by destruct db | by destruct db].
Qed.

End Generation.

Section EndToEnd.
Context {Store : Type} `{ItemStoreLaws Store card card_patch merge_card store_wf}.

(** C14: end to end, when the server listens on port 5000 and its cards
    router answers the request with [{ flashcards: [...] }], every
    question/answer pair becomes a card of the deck, in order, with fresh
    ids, and the user is told how many were generated; the database
    middleware plays no part. *)
Theorem generation_end_to_end env db u c d f n qas (st : @page Store) :
  listens_on_5000 env = true -> store_wf (cards st) -> inflight st <> 0 ->
  c (routed_request f n) =
    Some {| reply_status := 200; reply_body := BJson (JObj [("flashcards", JArr (map qa_object qas))]) |} ->
  exists o st', fetch_generate env db true u c d f n = Some o /\
    page_step (GenerateResponse o) st = Some (st', [Alert (AlertGenerated (length qas))]) /\
    exists new_ids, length new_ids = length qas /\
      items (cards st') =
        items (cards st) ++ zip new_ids (map (fun qa => {| front := js qa.1; back := js qa.2 |}) qas).
Proof.
  intros Hp Hwf Hin Hc. unfold routed_request in Hc.
  set (body0 := {| flashcards := Some (map qa_json (map qa_js qas)); error_msg := None |}).
  exists (Http true (Some body0)).
  destruct (generate_response_spec st body0 _ Hwf Hin eq_refl)
    as (st' & Hstep & _ & _ & new_ids & Hlen & Hitems).
  rewrite has_null_cards, !length_map, valid_prefix_cards, map_map in *.
  exists st'. split; [|split; [done | exists new_ids; split; [by rewrite Hlen, ?valid_prefix_cards, ?length_map | rewrite Hitems, ?valid_prefix_cards, ?map_map; reflexivity]]].
  unfold fetch_generate. rewrite Hp. cbv zeta.
  rewrite bool_decide_eq_true_2 by apply fetch_origin.
  simpl in Hc |- *. rewrite Hc. simpl. by rewrite decode_qa_objects.
Qed.

End EndToEnd.

(** ** Witnesses *)

#[local] Instance e2e_store_ops : ItemStore (list_store card) card card_patch := list_store_ops merge_card.
#[local] Instance e2e_store_laws : ItemStoreLaws (list_store card) card card_patch merge_card ls_wf :=
  list_store_laws merge_card.

(** The server started with [PORT=5000], as the page expects. *)
Definition env_5000 : environment := {[ "PORT" := "5000" ]}.

(** A cards router answering [POST /generate] with one card. *)
Definition one_card_router : router :=
  fun req => if bool_decide (path req = ["generate"])
             then Some {| reply_status := 200;
                          reply_body := BJson (JObj [("flashcards", JArr (map qa_object [("Q1", "A1")]))]) |}
             else None.

Lemma unrouted_generation_fails_witness :
  (listens_on_5000 env_5000 = true /\ inflight awaiting_page <> 0) /\
  fetch_generate env_5000 DbFailed false no_router no_router no_router "notes.pdf" (Num 5) =
    Some (Http false (Some {| flashcards := None; error_msg := Some "Database connection failed" |})) /\
  exists st', page_step (GenerateResponse (Http false (Some {| flashcards := None;
                 error_msg := Some "Database connection failed" |}))) awaiting_page =
    Some (st', [Alert (AlertError (Some "Database connection failed"))]) /\ cards st' = cards awaiting_page.
Proof.
  assert (Hp : listens_on_5000 env_5000 = true) by reflexivity.
  assert (Hin : inflight awaiting_page <> 0) by (simpl; lia).
  split; [split; [exact Hp | exact Hin]|].
  exact (unrouted_generation_fails env_5000 DbFailed false no_router no_router no_router
           "notes.pdf" (Num 5) awaiting_page Hp Hin (or_introl eq_refl)).
Defined.

Lemma generation_end_to_end_witness :
  (listens_on_5000 env_5000 = true /\ ls_wf (cards awaiting_page) /\ inflight awaiting_page <> 0) /\
  exists o st', fetch_generate env_5000 DbConnected true no_router one_card_router no_router
                  "notes.pdf" (Num 5) = Some o /\
    page_step (GenerateResponse o) awaiting_page = Some (st', [Alert (AlertGenerated 1)]) /\
    exists new_ids, length new_ids = 1 /\
      items (cards st') = items (cards awaiting_page) ++
        zip new_ids (map (fun qa => {| front := js qa.1; back := js qa.2 |}) [("Q1", "A1")]).
Proof.
  assert (Hp : listens_on_5000 env_5000 = true) by reflexivity.
  assert (Hin : inflight awaiting_page <> 0) by (simpl; lia).
  split; [split; [exact Hp | split; [exact initial_deck_wf | exact Hin]]|].
  exact (generation_end_to_end env_5000 DbConnected no_router one_card_router no_router
           "notes.pdf" (Num 5) [("Q1", "A1")] awaiting_page Hp initial_deck_wf Hin eq_refl).
Defined.
